(** * S3Service: a shallow embedding of [src/s3/s3.service.ts]

    The service wraps three commands of an injected S3 client.  The
    embedding follows the TypeScript source method by method:

    - a settled promise is an [Outcome] (resolved or rejected);
    - an [async] method is a function from the world before the call to
      its outcome and the world after it ([Async]);
    - the injected client is a parameter [send] of the development: the
      service is verified against every client, and, where a property is
      about the remote store, against a stated store contract;
    - the JavaScript built-ins the source calls ([String.prototype.slice],
      [includes], [Date], [Array.prototype.sort], [Buffer.concat],
      [Buffer.prototype.toString]) are modelled after ECMAScript / Node,
      with their implementation-defined parts left as parameters.

    Calls are taken one at a time: what other callers do to the store
    between two calls shows only as a difference between the world one
    call leaves and the world the next one starts from.  The [region]
    given to the constructor is read by no method and is left out. *)

From Stdlib Require Import ZArith String Ascii List Bool Lia Permutation Sorted.
From Stdlib Require Strings.Byte.
From stdpp Require Import gmap strings.
Import ListNotations.

Local Open Scope string_scope.
Local Open Scope Z_scope.

(** ** JavaScript strings

    Keys and messages are [string]s; one [ascii] stands for one code unit.
    [slice], [includes] and [length] act code unit by code unit, so their
    behaviour does not depend on the width of a unit. *)

Module JsString.

(** [ToIntegerOrInfinity] followed by the clamping of a relative index
    (ECMAScript, String.prototype.slice steps 4-9). *)
Definition relative_index (len i : Z) : Z :=
  if i <? 0 then Z.max (len + i) 0 else Z.min i len.

(** [s.slice(start, end)]. *)
Definition slice (start end_ : Z) (s : string) : string :=
  let len := Z.of_nat (String.length s) in
  let from := relative_index len start in
  let to := relative_index len end_ in
  substring (Z.to_nat from) (Z.to_nat (Z.max (to - from) 0)) s.

(** [s.includes(searchString)]: some suffix of [s] starts with
    [searchString]. *)
Fixpoint includes (searchString s : string) : bool :=
  String.prefix searchString s ||
  match s with
  | EmptyString => false
  | String _ rest => includes searchString rest
  end.

End JsString.

(** ** JavaScript numbers and dates

    A Number that is an integral count of milliseconds or NaN: [None] is
    NaN.  Time values are integers of magnitude at most 8.64e15, and the
    sort below only observes the sign of a difference, which the exact
    integer difference and the rounded double difference share. *)

Definition Number := option Z.

Definition number_sub (x y : Number) : Number :=
  match x, y with
  | Some a, Some b => Some (a - b)
  | _, _ => None
  end.

Module JsDate.

Definition msPerDay : Z := 86400000.

Definition DaysInYear (y : Z) : Z :=
  if negb (y mod 4 =? 0) then 365
  else if negb (y mod 100 =? 0) then 366
  else if negb (y mod 400 =? 0) then 365
  else 366.

Definition DayFromYear (y : Z) : Z :=
  365 * (y - 1970) + (y - 1969) / 4 - (y - 1901) / 100 + (y - 1601) / 400.

Definition InLeapYear (y : Z) : Z :=
  if DaysInYear y =? 366 then 1 else 0.

(** Number of days in month [m] (1 = January) of year [y]. *)
Definition DaysInMonth (y m : Z) : Z :=
  if m =? 2 then 28 + InLeapYear y
  else if (m =? 4) || (m =? 6) || (m =? 9) || (m =? 11) then 30
  else 31.

(** Day number, within its year, of the first day of month [m]. *)
Fixpoint days_before_month (y : Z) (m : nat) : Z :=
  match m with
  | O => 0
  | S O => 0
  | S m' => days_before_month y m' + DaysInMonth y (Z.of_nat m')
  end.

(** [MakeDay] for a month in 1..12 and a day of that month. *)
Definition MakeDay (y m d : Z) : Z :=
  DayFromYear y + days_before_month y (Z.to_nat m) + (d - 1).

Definition MakeDate (day time : Z) : Z := day * msPerDay + time.

Definition digit (c : ascii) : option Z :=
  let n := Z.of_nat (nat_of_ascii c) in
  if (48 <=? n) && (n <=? 57) then Some (n - 48) else None.

Definition digits2 (a b : ascii) : option Z :=
  match digit a, digit b with
  | Some x, Some y => Some (10 * x + y)
  | _, _ => None
  end.

Definition digits4 (a b c d : ascii) : option Z :=
  match digits2 a b, digits2 c d with
  | Some x, Some y => Some (100 * x + y)
  | _, _ => None
  end.

(** The date-only form [YYYY-MM-DD] of the ECMAScript Date Time String
    Format, for a day that exists in the calendar: such a string is
    read as midnight UTC of that day.  [None] for every other string. *)
Definition parse_iso_date (s : string) : option Z :=
  match list_ascii_of_string s with
  | [y1; y2; y3; y4; sep1; m1; m2; sep2; d1; d2] =>
      if Ascii.eqb sep1 "-" && Ascii.eqb sep2 "-" then
        match digits4 y1 y2 y3 y4, digits2 m1 m2, digits2 d1 d2 with
        | Some y, Some m, Some d =>
            if (1 <=? m) && (m <=? 12) && (1 <=? d) && (d <=? DaysInMonth y m)
            then Some (MakeDate (MakeDay y m d) 0)
            else None
        | _, _, _ => None
        end
      else None
  | _ => None
  end.

Section Parse.

(** What [Date.parse] makes of a string that is not a calendar date in
    the form above: the other forms of the format, and the
    implementation-specific fallback ECMAScript allows.  Any function
    may stand here; [None] is an invalid date. *)
Variable parse_other : string -> Number.

(** [new Date(s).getTime()]. *)
Definition getTime (s : string) : Number :=
  match parse_iso_date s with
  | Some tv => Some tv
  | None => parse_other s
  end.

End Parse.

End JsDate.

(** ** Array.prototype.sort

    ECMAScript requires a stable sort; [SortCompare] turns a NaN returned
    by the comparator into [+0].  For a consistent comparator the result
    is the unique stable ordering, which this insertion sort computes.
    When the comparator is not consistent (here: some, but not all, dates
    are invalid) ECMAScript leaves the order to the implementation: an
    engine may then order the array otherwise than this function does,
    and only what holds of every permutation of the array is to be
    relied on.  Where every comparison is a tie, stability fixes the
    order again. *)

Module JsArray.
Section Sort.
Context {A : Type}.
Variable comparefn : A -> A -> Number.

Definition SortCompare (x y : A) : Z :=
  match comparefn x y with
  | None => 0
  | Some v => v
  end.

Fixpoint insert_sorted (x : A) (l : list A) : list A :=
  match l with
  | [] => [x]
  | y :: rest =>
      if SortCompare x y <=? 0 then x :: l else y :: insert_sorted x rest
  end.

Fixpoint sort (l : list A) : list A :=
  match l with
  | [] => []
  | x :: rest => insert_sorted x (sort rest)
  end.
End Sort.
End JsArray.

(** ** Bytes, buffers and UTF-8 *)

Abbreviation byte := Byte.byte.

Definition Uint8Array := list byte.

Module Buffer.
(** [Buffer.concat(chunks)]. *)
Definition concat (chunks : list Uint8Array) : list byte := List.concat chunks.
End Buffer.

(** Text is the sequence of code points of a JavaScript string. *)
Definition Text := list Z.

Module Utf8.

Definition code (b : byte) : Z := Z.of_N (Byte.to_N b).

Definition byte_of (n : Z) : byte :=
  match Byte.of_N (Z.to_N n) with
  | Some b => b
  | None => Byte.x00
  end.

(** The six payload bits of a continuation byte 80..BF. *)
Definition continuation (b : byte) : option Z :=
  let n := code b in
  if (128 <=? n) && (n <=? 191) then Some (n - 128) else None.

Definition is_surrogate (cp : Z) : bool := (55296 <=? cp) && (cp <=? 57343).

Definition is_scalar (cp : Z) : bool :=
  (0 <=? cp) && (cp <=? 1114111) && negb (is_surrogate cp).

(** Strict decoding (RFC 3629): [None] as soon as the bytes are not
    well-formed UTF-8 (stray continuation, truncated or overlong
    sequence, surrogate, beyond U+10FFFF). *)
Fixpoint decode (bs : list byte) : option Text :=
  match bs with
  | [] => Some []
  | b0 :: r0 =>
      let n0 := code b0 in
      if n0 <? 128 then option_map (cons n0) (decode r0)
      else if (194 <=? n0) && (n0 <=? 223) then
        match r0 with
        | b1 :: r1 =>
            match continuation b1 with
            | Some c1 => option_map (cons ((n0 - 192) * 64 + c1)) (decode r1)
            | None => None
            end
        | _ => None
        end
      else if (224 <=? n0) && (n0 <=? 239) then
        match r0 with
        | b1 :: b2 :: r2 =>
            match continuation b1, continuation b2 with
            | Some c1, Some c2 =>
                let cp := (n0 - 224) * 4096 + c1 * 64 + c2 in
                if (2048 <=? cp) && negb (is_surrogate cp)
                then option_map (cons cp) (decode r2)
                else None
            | _, _ => None
            end
        | _ => None
        end
      else if (240 <=? n0) && (n0 <=? 244) then
        match r0 with
        | b1 :: b2 :: b3 :: r3 =>
            match continuation b1, continuation b2, continuation b3 with
            | Some c1, Some c2, Some c3 =>
                let cp := (n0 - 240) * 262144 + c1 * 4096 + c2 * 64 + c3 in
                if (65536 <=? cp) && (cp <=? 1114111)
                then option_map (cons cp) (decode r3)
                else None
            | _, _, _ => None
            end
        | _ => None
        end
      else None
  end.

Definition encode_scalar (cp : Z) : list byte :=
  if cp <? 128 then [byte_of cp]
  else if cp <? 2048 then
    [byte_of (192 + cp / 64); byte_of (128 + cp mod 64)]
  else if cp <? 65536 then
    [byte_of (224 + cp / 4096); byte_of (128 + (cp / 64) mod 64);
     byte_of (128 + cp mod 64)]
  else
    [byte_of (240 + cp / 262144); byte_of (128 + (cp / 4096) mod 64);
     byte_of (128 + (cp / 64) mod 64); byte_of (128 + cp mod 64)].

(** Encoding of a string: a lone surrogate is written as U+FFFD. *)
Definition encode (t : Text) : list byte :=
  flat_map (fun cp => encode_scalar (if is_scalar cp then cp else 65533)) t.

End Utf8.

(** ** Errors, promises and the world *)

Record JsError := { name : string; message : string }.

(** [new Error(msg)]. *)
Definition Error (msg : string) : JsError := {| name := "Error"; message := msg |}.

(** The [TypeError] of a method call on [undefined], with the message
    Node gives it. *)
Definition TypeError_reading (property : string) : JsError :=
  {| name := "TypeError";
     message := "Cannot read properties of undefined (reading '" ++ property ++ "')" |}.

Inductive Outcome (A : Type) : Type :=
| Resolved (value : A)
| Rejected (reason : JsError).
Arguments Resolved {A} value.
Arguments Rejected {A} reason.

(** ** The S3 client interface (from [@aws-sdk/client-s3]) *)

(** [data: any] of [uploadToS3]: text or bytes. *)
Inductive Payload :=
| TextBody (text : Text)
| BinaryBody (bytes : list byte).

(** The bytes that travel for a payload. *)
Definition body_bytes (data : Payload) : list byte :=
  match data with
  | TextBody text => Utf8.encode text
  | BinaryBody bytes => bytes
  end.

(** A Node [Readable] in byte mode: the chunks it yields, and the error
    it is destroyed with after them, if any. *)
Record Readable := { yields : list Uint8Array; failure : option JsError }.

(** [response.Body]: a Node stream, or one of the other shapes of the
    SDK's streaming blob type (a web stream, a Blob), which are not
    instances of [Readable]. *)
Inductive StreamingBlob :=
| NodeStream (stream : Readable)
| OtherBlob.

Module PutObject.
Record Input :=
  { Bucket : string; Key : string; Body : Payload; ContentType : string }.
Record Output := { ETag : option string }.
End PutObject.

Module GetObject.
Record Input := { Bucket : string; Key : string }.
Record Output := { Body : option StreamingBlob }.
End GetObject.

Module ListObjectsV2.
Record Input := { Bucket : string; Prefix : string }.
(** [Key?: string] of the SDK's [_Object]: an entry may come without its
    key. *)
Record Object_ := { Key : option string }.
Record Output := { Contents : option (list Object_) }.
End ListObjectsV2.

(** A listed entry that carries its key. *)
Definition listed (key : string) : ListObjectsV2.Object_ :=
  {| ListObjectsV2.Key := Some key |}.

Inductive Command : Type -> Type :=
| PutObjectCommand (input : PutObject.Input) : Command PutObject.Output
| GetObjectCommand (input : GetObject.Input) : Command GetObject.Output
| ListObjectsV2Command (input : ListObjectsV2.Input) : Command ListObjectsV2.Output.

(** ** The service *)

Section S3Service.

(** The state of everything behind the client, and the client's [send]:
    it settles a command and leaves a new remote state. *)
Variable Remote : Type.
Variable send : forall O : Type, Command O -> Remote -> Outcome O * Remote.

(** Implementation-defined parts of the built-ins (see [JsDate.getTime]);
    [decode_lossy] is what [toString('utf-8')] returns for bytes that
    are not well-formed UTF-8. *)
Variable parse_other : string -> Number.
Variable decode_lossy : list byte -> Text.

Record World := { remote : Remote; console : list string }.

Definition Async (A : Type) : Type := World -> Outcome A * World.

Definition ret {A} (a : A) : Async A := fun w => (Resolved a, w).

Definition throw {A} (e : JsError) : Async A := fun w => (Rejected e, w).

Definition bind {A B} (m : Async A) (k : A -> Async B) : Async B :=
  fun w =>
    match m w with
    | (Resolved a, w') => k a w'
    | (Rejected e, w') => (Rejected e, w')
    end.

Definition try_catch {A} (m : Async A) (handler : JsError -> Async A) : Async A :=
  fun w =>
    match m w with
    | (Resolved a, w') => (Resolved a, w')
    | (Rejected e, w') => handler e w'
    end.

(** [await this.s3Client.send(command)]. *)
Definition await_send {O} (command : Command O) : Async O :=
  fun w =>
    let (outcome, r) := send O command (remote w) in
    (outcome, {| remote := r; console := console w |}).

(** [console.log(line)]. *)
Definition console_log (line : string) : Async unit :=
  fun w => (Resolved tt, {| remote := remote w; console := console w ++ [line] |}).

Definition settle {A} (o : Outcome A) : Async A := fun w => (o, w).

Notation "x <- m ;; k" := (bind m (fun x => k))
  (at level 100, m at next level, right associativity).
Notation "m ;;; k" := (bind m (fun _ => k))
  (at level 100, right associativity).

(** [for await (const chunk of stream) { chunks.push(chunk); }] *)
Fixpoint for_await_push (pending : list Uint8Array) (failure : option JsError)
    (chunks : list Uint8Array) : Outcome (list Uint8Array) :=
  match pending with
  | [] =>
      match failure with
      | None => Resolved chunks
      | Some e => Rejected e
      end
  | chunk :: rest => for_await_push rest failure (chunks ++ [chunk])
  end.

(** [buffer.toString('utf-8')]. *)
Definition toString_utf8 (buffer : list byte) : Text :=
  match Utf8.decode buffer with
  | Some text => text
  | None => decode_lossy buffer
  end.

Definition uploadToS3 (bucketName filePath : string) (data : Payload)
    (mimeType : string) : Async PutObject.Output :=
  let input :=
    {| PutObject.Bucket := bucketName; PutObject.Key := filePath;
       PutObject.Body := data; PutObject.ContentType := mimeType |} in
  let command := PutObjectCommand input in
  try_catch (await_send command)
    (fun error => throw (Error ("Error uploading to S3: " ++ message error))).

Definition getFromS3 (bucketName filePath : string) : Async Text :=
  let input := {| GetObject.Bucket := bucketName; GetObject.Key := filePath |} in
  let command := GetObjectCommand input in
  try_catch
    (response <- await_send command ;;
     match GetObject.Body response with
     | Some (NodeStream stream) =>
         chunks <- settle (for_await_push (yields stream) (failure stream) []) ;;
         ret (toString_utf8 (Buffer.concat chunks))
     | _ => throw (Error "Unexpected response body type")
     end)
    (fun error => throw (Error ("Error retrieving from S3: " ++ message error))).

Definition getFromS3AsBinary (bucketName filePath : string) : Async (list byte) :=
  let input := {| GetObject.Bucket := bucketName; GetObject.Key := filePath |} in
  let command := GetObjectCommand input in
  try_catch
    (response <- await_send command ;;
     match GetObject.Body response with
     | Some (NodeStream stream) =>
         chunks <- settle (for_await_push (yields stream) (failure stream) []) ;;
         ret (Buffer.concat chunks)
     | _ => throw (Error "Unexpected response body type")
     end)
    (fun error => throw (Error ("Error retrieving from S3: " ++ message error))).

(** [keys.filter((key) => key.includes('_'))] over the keys read with
    [item.Key!].  The assertion is erased at run time: where a key is
    absent, [key.includes] throws. *)
Fixpoint filter_includes (keys : list (option string)) : Outcome (list string) :=
  match keys with
  | [] => Resolved []
  | None :: _ => Rejected (TypeError_reading "includes")
  | Some key :: rest =>
      match filter_includes rest with
      | Resolved files =>
          Resolved (if JsString.includes "_" key then key :: files else files)
      | Rejected e => Rejected e
      end
  end.

(** [new Date(key.slice(-14, -4)).getTime()]. *)
Definition sortDate (key : string) : Number :=
  JsDate.getTime parse_other (JsString.slice (-14) (-4) key).

(** The comparator handed to [sort]. *)
Definition compareFn (a b : string) : Number :=
  let dateA := sortDate a in
  let dateB := sortDate b in
  number_sub dateB dateA.

Definition getMostRecentFile (bucketName prefix : string) : Async (option string) :=
  let command :=
    ListObjectsV2Command
      {| ListObjectsV2.Bucket := bucketName; ListObjectsV2.Prefix := prefix |} in
  response <- await_send command ;;
  match ListObjectsV2.Contents response with
  | None => console_log "No files found." ;;; ret None
  | Some contents =>
      if (List.length contents =? 0)%nat
      then console_log "No files found." ;;; ret None
      else
        files <- settle (filter_includes (List.map ListObjectsV2.Key contents)) ;;
        let sortedFiles := JsArray.sort compareFn files in
        ret (List.head sortedFiles)
  end.

End S3Service.

Arguments remote {Remote} _.
Arguments console {Remote} _.
Arguments Build_World {Remote} _ _.
Arguments ret {Remote A} _ _.
Arguments throw {Remote A} _ _.
Arguments bind {Remote A B} _ _ _.
Arguments try_catch {Remote A} _ _ _.
Arguments settle {Remote A} _ _.
Arguments console_log {Remote} _ _.
Arguments await_send {Remote} send {O} _ _.
Arguments uploadToS3 {Remote} send _ _ _ _ _.
Arguments getFromS3 {Remote} send decode_lossy _ _ _.
Arguments getFromS3AsBinary {Remote} send _ _ _.
Arguments getMostRecentFile {Remote} send parse_other _ _ _.

(** The two error shapes of the service (the source throws plain [Error]s
    that differ by the prefix of their message). *)
Definition UploadError (cause : JsError) : JsError :=
  Error ("Error uploading to S3: " ++ message cause).

Definition DownloadError (cause : JsError) : JsError :=
  Error ("Error retrieving from S3: " ++ message cause).

(** Mapping over the value of a settled call. *)
Definition then_ {A B W} (f : A -> B) (r : Outcome A * W) : Outcome B * W :=
  match r with
  | (Resolved a, w) => (Resolved (f a), w)
  | (Rejected e, w) => (Rejected e, w)
  end.

(** ** Reference clients

    Executable clients, used to run the service and to show that the
    store contract below can be met. *)

Abbreviation Objects := (gmap (string * string) (list byte)).

Module MemoryStore.

Definition NoSuchKey : JsError :=
  {| name := "NoSuchKey"; message := "The specified key does not exist." |}.

Definition InvalidName : JsError :=
  {| name := "InvalidRequest"; message := "Bucket and key must not be empty." |}.

Definition put (input : PutObject.Input) (r : Objects) : Outcome PutObject.Output * Objects :=
  if String.eqb (PutObject.Bucket input) "" || String.eqb (PutObject.Key input) ""
  then (Rejected InvalidName, r)
  else (Resolved {| PutObject.ETag := None |},
        <[(PutObject.Bucket input, PutObject.Key input) :=
            body_bytes (PutObject.Body input)]> r).

(** The body arrives as a stream of two chunks. *)
Definition get (input : GetObject.Input) (r : Objects) : Outcome GetObject.Output * Objects :=
  match r !! (GetObject.Bucket input, GetObject.Key input) with
  | Some bytes =>
      (Resolved
         {| GetObject.Body :=
              Some (NodeStream {| yields := [firstn 3 bytes; skipn 3 bytes];
                                  failure := None |}) |}, r)
  | None => (Rejected NoSuchKey, r)
  end.

Definition list_objects (input : ListObjectsV2.Input) (r : Objects)
  : Outcome ListObjectsV2.Output * Objects :=
  let keys :=
    List.filter (String.prefix (ListObjectsV2.Prefix input))
      (List.map (fun entry => snd (fst entry))
         (List.filter
            (fun entry => String.eqb (fst (fst entry)) (ListObjectsV2.Bucket input))
            (map_to_list r))) in
  (Resolved
     {| ListObjectsV2.Contents :=
          match keys with
          | [] => None
          | _ => Some (List.map listed keys)
          end |}, r).

Definition send (O : Type) (command : Command O) : Objects -> Outcome O * Objects :=
  match command in Command O return Objects -> Outcome O * Objects with
  | PutObjectCommand input => put input
  | GetObjectCommand input => get input
  | ListObjectsV2Command input => list_objects input
  end.

End MemoryStore.

(** A store whose PUT is committed, after which the response is lost: the
    client reports a failure although the object was written. *)
Module LostResponse.

Definition Timeout : JsError :=
  {| name := "TimeoutError"; message := "socket hang up" |}.

Definition send (O : Type) (command : Command O) : Objects -> Outcome O * Objects :=
  match command in Command O return Objects -> Outcome O * Objects with
  | PutObjectCommand input =>
      fun r => (Rejected Timeout, snd (MemoryStore.put input r))
  | GetObjectCommand input => MemoryStore.get input
  | ListObjectsV2Command input => MemoryStore.list_objects input
  end.

End LostResponse.

(** A client that answers every listing with the given keys, in order. *)
Module Listing.

Definition Unsupported : JsError :=
  {| name := "NotImplemented"; message := "listing only" |}.

Definition send (keys : list string) (O : Type) (command : Command O)
  : unit -> Outcome O * unit :=
  match command in Command O return unit -> Outcome O * unit with
  | PutObjectCommand _ => fun r => (Rejected Unsupported, r)
  | GetObjectCommand _ => fun r => (Rejected Unsupported, r)
  | ListObjectsV2Command _ =>
      fun r =>
        (Resolved
           {| ListObjectsV2.Contents := Some (List.map listed keys) |}, r)
  end.

End Listing.

(** A client that answers every listing with the given entries. *)
Module Entries.

Definition send (contents : list ListObjectsV2.Object_) (O : Type)
    (command : Command O) : unit -> Outcome O * unit :=
  match command in Command O return unit -> Outcome O * unit with
  | PutObjectCommand _ => fun r => (Rejected Listing.Unsupported, r)
  | GetObjectCommand _ => fun r => (Rejected Listing.Unsupported, r)
  | ListObjectsV2Command _ =>
      fun r => (Resolved {| ListObjectsV2.Contents := Some contents |}, r)
  end.

End Entries.

(** A runtime whose response bodies are web streams, not Node streams. *)
Module WebRuntime.

Definition send (O : Type) (command : Command O) : unit -> Outcome O * unit :=
  match command in Command O return unit -> Outcome O * unit with
  | PutObjectCommand _ => fun r => (Resolved {| PutObject.ETag := None |}, r)
  | GetObjectCommand _ =>
      fun r => (Resolved {| GetObject.Body := Some OtherBlob |}, r)
  | ListObjectsV2Command _ =>
      fun r => (Resolved {| ListObjectsV2.Contents := None |}, r)
  end.

End WebRuntime.

(** Every string outside the calendar-date form is an invalid date. *)
Definition no_other_dates : string -> Number := fun _ => None.

(** A fallback that reads one string in the year-month form of the
    format, as the first instant of that month, and nothing else. *)
Definition reads_2030_07 : string -> Number :=
  fun s =>
    if String.eqb s "2030-07"
    then Some (JsDate.MakeDate (JsDate.MakeDay 2030 7 1) 0)
    else None.

(** The replacement policy is irrelevant for well-formed input. *)
Definition no_replacement : list byte -> Text := fun _ => [].

(** ** The store contract

    What the service may expect of the store behind [send], seen through
    an abstraction [objects] of the remote state as a map from (bucket,
    key) to the stored bytes. *)

Section StoreContract.
Context {Remote : Type}.
Variable send : forall O : Type, Command O -> Remote -> Outcome O * Remote.
Variable objects : Remote -> Objects.

Definition written (input : PutObject.Input) (m : Objects) : Objects :=
  <[(PutObject.Bucket input, PutObject.Key input) :=
      body_bytes (PutObject.Body input)]> m.

(** A PUT, however it settles, adds the entire object or nothing. *)
Definition put_is_atomic : Prop :=
  forall input r outcome r',
    send _ (PutObjectCommand input) r = (outcome, r') ->
    objects r' = objects r \/ objects r' = written input (objects r).

(** A success response to a PUT means the entire object was added. *)
Definition put_commits : Prop :=
  forall input r output r',
    send _ (PutObjectCommand input) r = (Resolved output, r') ->
    objects r' = written input (objects r).

(** A GET of a stored object delivers a complete Node stream of exactly
    its bytes (read-after-write consistency, no transport failure). *)
Definition get_serves : Prop :=
  forall input r bytes,
    objects r !! (GetObject.Bucket input, GetObject.Key input) = Some bytes ->
    exists chunks r',
      send _ (GetObjectCommand input) r =
        (Resolved
           {| GetObject.Body :=
                Some (NodeStream {| yields := chunks; failure := None |}) |}, r')
      /\ Buffer.concat chunks = bytes.

End StoreContract.

(** The keys [getMostRecentFile] sorts: those with an underscore. *)
Definition retained (keys : list string) : list string :=
  List.filter (fun key => JsString.includes "_" key) keys.

(** ** Ranking by date *)

Section RankingDefs.
Variable parse_other : string -> Number.

Definition dated (key : string) : Prop :=
  exists t, sortDate parse_other key = Some t.

(** [a] carries a date strictly earlier than that of [b]. *)
Definition earlier (a b : string) : Prop :=
  exists ta tb,
    sortDate parse_other a = Some ta /\ sortDate parse_other b = Some tb /\ ta < tb.

(** [a] carries a date that is not later than that of [b]. *)
Definition not_later (a b : string) : Prop :=
  exists ta tb,
    sortDate parse_other a = Some ta /\ sortDate parse_other b = Some tb /\ ta <= tb.

(** [key] is the first of [files], in listing order, among those that
    carry the latest date. *)
Definition first_latest (key : string) (files : list string) : Prop :=
  exists before after,
    files = (before ++ key :: after)%list
    /\ (forall k, In k before -> earlier k key)
    /\ (forall k, In k after -> not_later k key).

End RankingDefs.

(** The bytes a response body drains to, or the error thrown inside the
    [try] block. *)
Definition drained (response : GetObject.Output) : Outcome (list byte) :=
  match GetObject.Body response with
  | Some (NodeStream stream) =>
      match failure stream with
      | None => Resolved (Buffer.concat (yields stream))
      | Some e => Rejected e
      end
  | _ => Rejected (Error "Unexpected response body type")
  end.

(** What a listing response settles to, and the lines logged. *)
Definition most_recent (parse_other : string -> Number)
    (response : ListObjectsV2.Output) : Outcome (option string) :=
  match ListObjectsV2.Contents response with
  | None => Resolved None
  | Some contents =>
      match filter_includes (List.map ListObjectsV2.Key contents) with
      | Resolved files =>
          Resolved (List.head (JsArray.sort (compareFn parse_other) files))
      | Rejected e => Rejected e
      end
  end.

Definition logged (response : ListObjectsV2.Output) : list string :=
  match ListObjectsV2.Contents response with
  | None | Some [] => ["No files found."]
  | Some _ => []
  end.

(** A store whose response stream breaks after the first chunk. *)
Module BrokenStream.

Definition Aborted : JsError := {| name := "AbortError"; message := "aborted" |}.

Definition send (O : Type) (command : Command O) : unit -> Outcome O * unit :=
  match command in Command O return unit -> Outcome O * unit with
  | PutObjectCommand _ => fun r => (Resolved {| PutObject.ETag := None |}, r)
  | GetObjectCommand _ =>
      fun r =>
        (Resolved
           {| GetObject.Body :=
                Some (NodeStream {| yields := [[Byte.x25; Byte.x50]];
                                    failure := Some Aborted |}) |}, r)
  | ListObjectsV2Command _ =>
      fun r => (Resolved {| ListObjectsV2.Contents := None |}, r)
  end.

End BrokenStream.

(** A store that serves one fixed body in the given chunks. *)
Module Chunked.

Definition send (chunks : list Uint8Array) (O : Type) (command : Command O)
  : unit -> Outcome O * unit :=
  match command in Command O return unit -> Outcome O * unit with
  | PutObjectCommand _ => fun r => (Resolved {| PutObject.ETag := None |}, r)
  | GetObjectCommand _ =>
      fun r =>
        (Resolved
           {| GetObject.Body :=
                Some (NodeStream {| yields := chunks; failure := None |}) |}, r)
  | ListObjectsV2Command _ =>
      fun r => (Resolved {| ListObjectsV2.Contents := None |}, r)
  end.

End Chunked.

(** The 10 code units of a key that end 4 before its end. *)
Definition date_token (key : string) : string :=
  substring (String.length key - 14) 10 key.

(** ** Further vocabulary *)

(** The keys of a listing response, in order. *)
Definition listed_keys (response : ListObjectsV2.Output) : list string :=
  match ListObjectsV2.Contents response with
  | None => []
  | Some contents =>
      List.flat_map
        (fun item =>
           match ListObjectsV2.Key item with
           | Some key => [key]
           | None => []
           end) contents
  end.

(** Every entry of the listing carries its key. *)
Definition all_keyed (response : ListObjectsV2.Output) : Prop :=
  ListObjectsV2.Contents response = None
  \/ exists keys, ListObjectsV2.Contents response = Some (List.map listed keys).

Section ListingContract.
Context {Remote : Type}.
Variable send : forall O : Type, Command O -> Remote -> Outcome O * Remote.
Variable objects : Remote -> Objects.

(** A listing gives every entry its key, and names no key that is not
    stored in the bucket under the prefix.  (It may leave stored keys
    out: a listing is one page.) *)
Definition list_sound : Prop :=
  forall input r response r',
    send _ (ListObjectsV2Command input) r = (Resolved response, r') ->
    all_keyed response
    /\ forall key,
         In key (listed_keys response) ->
         is_Some (objects r !! (ListObjectsV2.Bucket input, key))
         /\ String.prefix (ListObjectsV2.Prefix input) key = true.

End ListingContract.

(** The year, month and day a date token names, when it is a calendar
    date in the form [YYYY-MM-DD] (the reading [JsDate.parse_iso_date]
    makes of it, before the day count). *)
Definition calendar_date (s : string) : option (Z * Z * Z) :=
  match list_ascii_of_string s with
  | [y1; y2; y3; y4; sep1; m1; m2; sep2; d1; d2] =>
      if Ascii.eqb sep1 "-" && Ascii.eqb sep2 "-" then
        match JsDate.digits4 y1 y2 y3 y4, JsDate.digits2 m1 m2, JsDate.digits2 d1 d2 with
        | Some y, Some m, Some d =>
            if (1 <=? m) && (m <=? 12) && (1 <=? d) && (d <=? JsDate.DaysInMonth y m)
            then Some (y, m, d)
            else None
        | _, _, _ => None
        end
      else None
  | _ => None
  end.

(** Calendar order: by year, then month, then day. *)
Definition calendar_lt (a b : Z * Z * Z) : Prop :=
  let '(y, m, d) := a in
  let '(y', m', d') := b in
  y < y' \/ (y = y' /\ (m < m' \/ (m = m' /\ d < d'))).

(** * Properties *)

(** ** Sorting *)

Section SortFacts.
Context {A : Type}.
Variable comparefn : A -> A -> Number.

Lemma insert_sorted_perm (x : A) (l : list A) :
  Permutation (JsArray.insert_sorted comparefn x l) (x :: l).
Proof.
  induction l as [|y rest IH]; simpl.
  - reflexivity.
  - destruct (JsArray.SortCompare comparefn x y <=? 0).
    + reflexivity.
    + rewrite IH. apply perm_swap.
Qed.

(** Sorting loses no element and invents none. *)
Lemma sort_perm (l : list A) : Permutation (JsArray.sort comparefn l) l.
Proof.
  induction l as [|x rest IH]; simpl.
  - reflexivity.
  - rewrite insert_sorted_perm. now apply perm_skip.
Qed.

Lemma sort_nil_inv (l : list A) : JsArray.sort comparefn l = [] -> l = [].
Proof.
  intros E. apply Permutation_nil. rewrite <- E. apply sort_perm.
Qed.

Lemma head_sort_In (l : list A) (x : A) :
  List.head (JsArray.sort comparefn l) = Some x -> In x l.
Proof.
  intros E. apply (Permutation_in x (sort_perm l)).
  destruct (JsArray.sort comparefn l); simpl in E; [discriminate|].
  injection E as ->. now left.
Qed.

Lemma head_sort_is_Some (l : list A) :
  l <> [] -> exists x, List.head (JsArray.sort comparefn l) = Some x.
Proof.
  intros Hl. destruct (JsArray.sort comparefn l) as [|x s] eqn:E.
  - now apply sort_nil_inv in E.
  - now exists x.
Qed.

(** The first element after sorting [x :: rest]. *)
Lemma head_sort_cons (x : A) (rest : list A) :
  List.head (JsArray.sort comparefn (x :: rest)) =
    match List.head (JsArray.sort comparefn rest) with
    | None => Some x
    | Some h => if JsArray.SortCompare comparefn x h <=? 0 then Some x else Some h
    end.
Proof.
  simpl. destruct (JsArray.sort comparefn rest) as [|h s]; simpl; [reflexivity|].
  now destruct (JsArray.SortCompare comparefn x h <=? 0).
Qed.

End SortFacts.

(** ** The head of the sorted keys *)

Section Ranking.
Variable parse_other : string -> Number.

Local Abbreviation dated := (dated parse_other).
Local Abbreviation earlier := (earlier parse_other).
Local Abbreviation not_later := (not_later parse_other).
Local Abbreviation first_latest := (first_latest parse_other).

Lemma SortCompare_dated (a b : string) (ta tb : Z) :
  sortDate parse_other a = Some ta ->
  sortDate parse_other b = Some tb ->
  JsArray.SortCompare (compareFn parse_other) a b = tb - ta.
Proof.
  intros Ea Eb. unfold JsArray.SortCompare, compareFn. now rewrite Ea, Eb.
Qed.

Lemma not_later_refl (k : string) : dated k -> not_later k k.
Proof. intros [t E]. exists t, t. repeat split; trivial. lia. Qed.

Lemma earlier_not_later (a b : string) : earlier a b -> not_later a b.
Proof.
  intros (ta & tb & Ea & Eb & Hlt). exists ta, tb. repeat split; trivial. lia.
Qed.

Lemma not_later_trans (a b c : string) :
  not_later a b -> not_later b c -> not_later a c.
Proof.
  intros (ta & tb & Ea & Eb & H1) (tb' & tc & Eb' & Ec & H2).
  rewrite Eb in Eb'. injection Eb' as <-.
  exists ta, tc. repeat split; trivial. lia.
Qed.

Lemma earlier_not_later_trans (a b c : string) :
  earlier a b -> earlier b c -> earlier a c.
Proof.
  intros (ta & tb & Ea & Eb & H1) (tb' & tc & Eb' & Ec & H2).
  rewrite Eb in Eb'. injection Eb' as <-.
  exists ta, tc. repeat split; trivial. lia.
Qed.

(** With every date valid the comparator is consistent, and the head of
    the sorted array is the first key carrying the latest date. *)
Lemma head_sort_first_latest (files : list string) (key : string) :
  Forall dated files ->
  List.head (JsArray.sort (compareFn parse_other) files) = Some key ->
  first_latest key files.
Proof.
  revert key. induction files as [|x rest IH]; intros key Hd E.
  - discriminate.
  - rewrite head_sort_cons in E.
    apply Forall_cons_iff in Hd as [Hx Hrest].
    destruct (List.head (JsArray.sort (compareFn parse_other) rest)) as [h|] eqn:Eh.
    + destruct (IH h Hrest eq_refl) as (before & after & -> & Hb & Ha).
      assert (Hh : dated h).
      { rewrite List.Forall_forall in Hrest. apply Hrest, in_elt. }
      destruct Hx as [tx Ex], Hh as [th Eh'].
      rewrite (SortCompare_dated x h tx th Ex Eh') in E.
      destruct (th - tx <=? 0) eqn:Ecmp; injection E as <-.
      * apply Z.leb_le in Ecmp.
        assert (Hhx : not_later h x) by (exists th, tx; repeat split; trivial; lia).
        exists [], (before ++ h :: after)%list. repeat split; trivial.
        -- intros k [].
        -- intros k Hin. apply in_app_or in Hin as [Hin|[<-|Hin]].
           ++ eapply not_later_trans; [apply earlier_not_later, Hb, Hin|exact Hhx].
           ++ exact Hhx.
           ++ eapply not_later_trans; [apply Ha, Hin|exact Hhx].
      * apply Z.leb_gt in Ecmp.
        exists (x :: before), after. repeat split; trivial.
        intros k [<-|Hin]; [|now apply Hb].
        exists tx, th. repeat split; trivial. lia.
    + injection E as <-.
      destruct rest as [|y rest'].
      * exists [], []. repeat split; trivial; intros k [].
      * destruct (head_sort_is_Some (compareFn parse_other) (y :: rest')) as [h Eh'];
          [discriminate|congruence].
Qed.

End Ranking.

(** A key that is strictly later than every other one is the head. *)
Lemma unique_latest_head (parse_other : string -> Number) (files : list string)
    (key : string) :
  In key files ->
  dated parse_other key ->
  (forall k, In k files -> k <> key -> earlier parse_other k key) ->
  List.head (JsArray.sort (compareFn parse_other) files) = Some key.
Proof.
  intros Hin Hkey Hothers.
  assert (Hdated : List.Forall (dated parse_other) files).
  { apply List.Forall_forall. intros k Hk.
    destruct (string_dec k key) as [->|Hne]; [exact Hkey|].
    destruct (Hothers k Hk Hne) as (tk & _ & Ek & _). now exists tk. }
  destruct (head_sort_is_Some (compareFn parse_other) files) as [h Hh].
  { intros E. rewrite E in Hin. destruct Hin. }
  rewrite Hh. f_equal.
  destruct (string_dec h key) as [E|Hne]; [exact E|exfalso].
  destruct (Hothers h (head_sort_In _ _ _ Hh) Hne) as (th & tk & Eh & Ek & Hlt).
  destruct (head_sort_first_latest parse_other _ _ Hdated Hh)
    as (before & after & Hsplit & Hb & Ha).
  rewrite Hsplit in Hin. apply in_app_or in Hin as [Hin|[Hin|Hin]].
  - destruct (Hb key Hin) as (tk' & th' & Ek' & Eh' & Hlt').
    rewrite Ek in Ek'. rewrite Eh in Eh'.
    injection Ek' as <-. injection Eh' as <-. lia.
  - now apply Hne.
  - destruct (Ha key Hin) as (tk' & th' & Ek' & Eh' & Hle').
    rewrite Ek in Ek'. rewrite Eh in Eh'.
    injection Ek' as <-. injection Eh' as <-. lia.
Qed.

(** With every date valid, no key is later than the head. *)
Lemma first_latest_max_of_head (parse_other : string -> Number) (files : list string)
    (key : string) :
  List.Forall (dated parse_other) files ->
  List.head (JsArray.sort (compareFn parse_other) files) = Some key ->
  forall k, In k files -> not_later parse_other k key.
Proof.
  intros Hdated Hkey k Hk.
  destruct (head_sort_first_latest parse_other _ _ Hdated Hkey)
    as (before & after & -> & Hb & Ha).
  apply in_app_or in Hk as [Hk|[<-|Hk]].
  - now apply earlier_not_later, Hb.
  - apply not_later_refl. rewrite List.Forall_forall in Hdated.
    apply Hdated, in_elt.
  - now apply Ha.
Qed.

(** ** The order of the sorted keys *)

Section Descending.
Variable parse_other : string -> Number.

Local Abbreviation dated := (dated parse_other).
Local Abbreviation not_later := (not_later parse_other).
Local Abbreviation descending := (StronglySorted (fun a b => not_later b a)).

Lemma insert_sorted_descending (x : string) (s : list string) :
  dated x -> List.Forall dated s -> descending s ->
  descending (JsArray.insert_sorted (compareFn parse_other) x s).
Proof.
  induction s as [|y rest IH]; intros Hx Hs Hsorted; simpl.
  - repeat constructor.
  - apply StronglySorted_inv in Hsorted as [Hrest Hy].
    apply Forall_cons_iff in Hs as [Hdy Hdrest].
    destruct Hx as [tx Ex]. destruct Hdy as [ty Ey].
    rewrite (SortCompare_dated parse_other x y tx ty Ex Ey).
    destruct (ty - tx <=? 0) eqn:Ecmp.
    + apply Z.leb_le in Ecmp.
      assert (Hyx : not_later y x) by (exists ty, tx; repeat split; trivial; lia).
      constructor; [now constructor|].
      constructor; [exact Hyx|].
      eapply List.Forall_impl; [|exact Hy].
      intros z Hz. exact (not_later_trans parse_other z y x Hz Hyx).
    + apply Z.leb_gt in Ecmp.
      constructor; [apply IH; trivial; now exists tx|].
      apply (Permutation_Forall (Permutation_sym (insert_sorted_perm _ x rest))).
      constructor; [|exact Hy].
      exists tx, ty. repeat split; trivial. lia.
Qed.

(** With every date valid, the sorted array is in descending order of
    date. *)
Lemma sort_descending (files : list string) :
  List.Forall dated files ->
  descending (JsArray.sort (compareFn parse_other) files).
Proof.
  induction files as [|x rest IH]; intros Hd; simpl.
  - constructor.
  - apply Forall_cons_iff in Hd as [Hx Hrest].
    apply insert_sorted_descending; trivial.
    + apply (Permutation_Forall (Permutation_sym (sort_perm _ rest)) Hrest).
    + now apply IH.
Qed.

End Descending.

(** ** UTF-8: decoding undoes encoding *)

Lemma code_byte_of (n : Z) : 0 <= n < 256 -> Utf8.code (Utf8.byte_of n) = n.
Proof.
  intros Hn. unfold Utf8.code, Utf8.byte_of.
  destruct (Byte.of_N (Z.to_N n)) as [b|] eqn:E.
  - apply Byte.to_of_N in E. rewrite E. lia.
  - apply Byte.of_N_None_iff in E. lia.
Qed.

Lemma continuation_byte_of (n : Z) :
  0 <= n < 64 -> Utf8.continuation (Utf8.byte_of (128 + n)) = Some n.
Proof.
  intros Hn. unfold Utf8.continuation. rewrite code_byte_of by lia.
  destruct (Z.leb_spec 128 (128 + n)); [|lia].
  destruct (Z.leb_spec (128 + n) 191); [|lia].
  simpl. f_equal. lia.
Qed.

Ltac decide_tests :=
  repeat match goal with
    | |- context [?a <? ?b] => destruct (Z.ltb_spec a b); try lia
    | |- context [?a <=? ?b] => destruct (Z.leb_spec a b); try lia
    end.

Lemma decode_encode_scalar (cp : Z) (rest : list byte) :
  Utf8.is_scalar cp = true ->
  Utf8.decode (Utf8.encode_scalar cp ++ rest)
  = option_map (cons cp) (Utf8.decode rest).
Proof.
  unfold Utf8.is_scalar, Utf8.is_surrogate. intros Hcp.
  assert (Hrange : 0 <= cp <= 1114111 /\ (cp < 55296 \/ 57343 < cp)) by lia.
  clear Hcp. unfold Utf8.encode_scalar.
  destruct (Z.ltb_spec cp 128); [|destruct (Z.ltb_spec cp 2048);
                                   [|destruct (Z.ltb_spec cp 65536)]].
  - simpl. rewrite code_byte_of by lia. decide_tests. reflexivity.
  - pose proof (Z.div_mod cp 64 ltac:(lia)).
    pose proof (Z.mod_pos_bound cp 64 ltac:(lia)).
    set (hi := cp / 64) in *. set (lo := cp mod 64) in *.
    simpl. rewrite code_byte_of by lia. rewrite continuation_byte_of by lia.
    decide_tests. simpl. do 2 f_equal. lia.
  - pose proof (Z.div_mod cp 64 ltac:(lia)).
    pose proof (Z.mod_pos_bound cp 64 ltac:(lia)).
    pose proof (Z.div_mod (cp / 64) 64 ltac:(lia)).
    pose proof (Z.mod_pos_bound (cp / 64) 64 ltac:(lia)).
    assert (cp / 4096 = cp / 64 / 64) by (rewrite Z.div_div by lia; reflexivity).
    set (lo := cp mod 64) in *. set (mid := (cp / 64) mod 64) in *.
    set (hi := cp / 4096) in *. set (q := cp / 64) in *.
    simpl. rewrite code_byte_of by lia. rewrite !continuation_byte_of by lia.
    unfold Utf8.is_surrogate. decide_tests; simpl; try lia; do 2 f_equal; lia.
  - pose proof (Z.div_mod cp 64 ltac:(lia)).
    pose proof (Z.mod_pos_bound cp 64 ltac:(lia)).
    pose proof (Z.div_mod (cp / 64) 64 ltac:(lia)).
    pose proof (Z.mod_pos_bound (cp / 64) 64 ltac:(lia)).
    pose proof (Z.div_mod (cp / 4096) 64 ltac:(lia)).
    pose proof (Z.mod_pos_bound (cp / 4096) 64 ltac:(lia)).
    assert (cp / 4096 = cp / 64 / 64) by (rewrite Z.div_div by lia; reflexivity).
    assert (cp / 262144 = cp / 4096 / 64) by (rewrite Z.div_div by lia; reflexivity).
    set (lo := cp mod 64) in *. set (mid := (cp / 64) mod 64) in *.
    set (up := (cp / 4096) mod 64) in *.
    set (hi := cp / 262144) in *. set (q2 := cp / 4096) in *. set (q := cp / 64) in *.
    simpl. rewrite code_byte_of by lia. rewrite !continuation_byte_of by lia.
    decide_tests; simpl; try lia; do 2 f_equal; lia.
Qed.

Lemma decode_encode (t : Text) :
  List.Forall (fun cp => Utf8.is_scalar cp = true) t ->
  Utf8.decode (Utf8.encode t) = Some t.
Proof.
  induction 1 as [|cp t Hcp _ IH]; [reflexivity|].
  unfold Utf8.encode in *. simpl. rewrite Hcp.
  rewrite decode_encode_scalar by trivial. now rewrite IH.
Qed.

(** ** What each method does with the client's answer *)

Lemma for_await_push_complete (pending chunks : list Uint8Array) :
  for_await_push pending None chunks = Resolved (chunks ++ pending)%list.
Proof.
  revert chunks. induction pending as [|chunk rest IH]; intros chunks; simpl.
  - now rewrite app_nil_r.
  - rewrite IH. now rewrite <- app_assoc.
Qed.

Lemma for_await_push_destroyed (pending chunks : list Uint8Array) (e : JsError) :
  for_await_push pending (Some e) chunks = Rejected e.
Proof.
  revert chunks. induction pending as [|chunk rest IH]; intros chunks; simpl; auto.
Qed.

(** The filter over a listing whose entries all carry their keys. *)
Lemma filter_includes_listed (keys : list string) :
  filter_includes (List.map ListObjectsV2.Key (List.map listed keys))
  = Resolved (retained keys).
Proof.
  induction keys as [|key rest IH]; simpl; [reflexivity|]. now rewrite IH.
Qed.

(** The filter throws exactly when some key is absent. *)
Lemma filter_includes_keyless (keys : list (option string)) :
  In None keys -> filter_includes keys = Rejected (TypeError_reading "includes").
Proof.
  induction keys as [|[key|] rest IH]; intros Hin; simpl; trivial.
  - destruct Hin.
  - destruct Hin as [Hin|Hin]; [discriminate|]. now rewrite IH.
Qed.

Lemma filter_includes_rejected (keys : list (option string)) (e : JsError) :
  filter_includes keys = Rejected e ->
  e = TypeError_reading "includes" /\ In None keys.
Proof.
  induction keys as [|[key|] rest IH]; simpl; intros H.
  - discriminate.
  - destruct (filter_includes rest); [discriminate|].
    injection H as ->. destruct (IH eq_refl) as [-> Hin]. split; [reflexivity|now right].
  - injection H as <-. split; [reflexivity|now left].
Qed.

Lemma filter_includes_resolved (contents : list ListObjectsV2.Object_)
    (files : list string) :
  filter_includes (List.map ListObjectsV2.Key contents) = Resolved files ->
  exists keys, contents = List.map listed keys /\ files = retained keys.
Proof.
  revert files. induction contents as [|[[key|]] rest IH]; simpl; intros files H.
  - injection H as <-. now exists [].
  - destruct (filter_includes _) as [files'|]; [|discriminate].
    destruct (IH files' eq_refl) as (keys & -> & ->). injection H as <-.
    now exists (key :: keys).
  - discriminate.
Qed.

Lemma most_recent_listed (parse_other : string -> Number)
    (response : ListObjectsV2.Output) (keys : list string) :
  ListObjectsV2.Contents response = Some (List.map listed keys) ->
  most_recent parse_other response
  = Resolved (List.head (JsArray.sort (compareFn parse_other) (retained keys))).
Proof.
  intros E. unfold most_recent. now rewrite E, filter_includes_listed.
Qed.

Lemma logged_listed (response : ListObjectsV2.Output) (keys : list string) :
  ListObjectsV2.Contents response = Some (List.map listed keys) ->
  keys <> [] -> logged response = [].
Proof.
  intros E Hkeys. unfold logged. rewrite E. now destruct keys.
Qed.

Section ServiceFacts.
Context {Remote : Type}.
Variable send : forall O : Type, Command O -> Remote -> Outcome O * Remote.
Variable parse_other : string -> Number.
Variable decode_lossy : list byte -> Text.

Local Abbreviation after_send w r := (Build_World r (console w)).

Lemma uploadToS3_unfold (bucketName filePath : string) (data : Payload)
    (mimeType : string) (w : World Remote) :
  uploadToS3 send bucketName filePath data mimeType w =
    match send _ (PutObjectCommand
                    {| PutObject.Bucket := bucketName; PutObject.Key := filePath;
                       PutObject.Body := data; PutObject.ContentType := mimeType |})
            (remote w) with
    | (Resolved output, r) => (Resolved output, after_send w r)
    | (Rejected e, r) => (Rejected (UploadError e), after_send w r)
    end.
Proof.
  unfold uploadToS3, try_catch, await_send.
  destruct (send _ _ (remote w)) as [[output|e] r]; reflexivity.
Qed.

Lemma getFromS3AsBinary_unfold (bucketName filePath : string) (w : World Remote) :
  getFromS3AsBinary send bucketName filePath w =
    match send _ (GetObjectCommand
                    {| GetObject.Bucket := bucketName; GetObject.Key := filePath |})
            (remote w) with
    | (Resolved response, r) =>
        (match drained response with
         | Resolved bytes => Resolved bytes
         | Rejected e => Rejected (DownloadError e)
         end, after_send w r)
    | (Rejected e, r) => (Rejected (DownloadError e), after_send w r)
    end.
Proof.
  unfold getFromS3AsBinary, try_catch, bind, await_send, drained.
  destruct (send _ _ (remote w)) as [[response|e] r]; [|reflexivity].
  destruct (GetObject.Body response) as [[[pending [e|]]|]|]; simpl;
    unfold settle, throw, ret;
    rewrite ?for_await_push_complete, ?for_await_push_destroyed; reflexivity.
Qed.

Lemma getFromS3_unfold (bucketName filePath : string) (w : World Remote) :
  getFromS3 send decode_lossy bucketName filePath w =
    match send _ (GetObjectCommand
                    {| GetObject.Bucket := bucketName; GetObject.Key := filePath |})
            (remote w) with
    | (Resolved response, r) =>
        (match drained response with
         | Resolved bytes => Resolved (toString_utf8 decode_lossy bytes)
         | Rejected e => Rejected (DownloadError e)
         end, after_send w r)
    | (Rejected e, r) => (Rejected (DownloadError e), after_send w r)
    end.
Proof.
  unfold getFromS3, try_catch, bind, await_send, drained.
  destruct (send _ _ (remote w)) as [[response|e] r]; [|reflexivity].
  destruct (GetObject.Body response) as [[[pending [e|]]|]|]; simpl;
    unfold settle, throw, ret;
    rewrite ?for_await_push_complete, ?for_await_push_destroyed; reflexivity.
Qed.

Lemma getMostRecentFile_unfold (bucketName prefix : string) (w : World Remote) :
  getMostRecentFile send parse_other bucketName prefix w =
    match send _ (ListObjectsV2Command
                    {| ListObjectsV2.Bucket := bucketName;
                       ListObjectsV2.Prefix := prefix |})
            (remote w) with
    | (Resolved response, r) =>
        (most_recent parse_other response,
         Build_World r (console w ++ logged response))
    | (Rejected e, r) => (Rejected e, after_send w r)
    end.
Proof.
  unfold getMostRecentFile, bind, await_send, most_recent, logged.
  destruct (send _ _ (remote w)) as [[response|e] r]; [|reflexivity].
  destruct (ListObjectsV2.Contents response) as [[|item contents]|];
    [reflexivity| |reflexivity].
  cbn [List.length Nat.eqb]. unfold settle, ret.
  destruct (filter_includes _); cbn [remote console]; now rewrite app_nil_r.
Qed.

End ServiceFacts.

(** The call on a listing whose entries carry their keys, one of which
    comes first after sorting. *)
Lemma getMostRecentFile_listed
    {Remote : Type} (send : forall O : Type, Command O -> Remote -> Outcome O * Remote)
    (parse_other : string -> Number) (bucketName prefix : string)
    (w : World Remote) (response : ListObjectsV2.Output) (r : Remote)
    (keys : list string) (key : string) :
  send _ (ListObjectsV2Command
            {| ListObjectsV2.Bucket := bucketName; ListObjectsV2.Prefix := prefix |})
    (remote w) = (Resolved response, r) ->
  ListObjectsV2.Contents response = Some (List.map listed keys) ->
  List.head (JsArray.sort (compareFn parse_other) (retained keys)) = Some key ->
  getMostRecentFile send parse_other bucketName prefix w
  = (Resolved (Some key), Build_World r (console w)).
Proof.
  intros Hsend Hcontents Hkey.
  rewrite getMostRecentFile_unfold, Hsend.
  rewrite (most_recent_listed parse_other response keys Hcontents), Hkey.
  rewrite (logged_listed response keys Hcontents); [now rewrite app_nil_r|].
  intros ->. discriminate Hkey.
Qed.

(** ** Claims about errors and the sentinel *)

Lemma retained_nil_of_no_underscore (keys : list string) :
  List.Forall (fun key => JsString.includes "_" key = false) keys ->
  retained keys = [].
Proof.
  unfold retained. induction 1 as [|key rest Hkey _ IH]; simpl.
  - reflexivity.
  - now rewrite Hkey.
Qed.

(** C3. When the listing succeeds and brings no contents, or only keys
    without an underscore, [getMostRecentFile] resolves with [undefined]:
    the call is not rejected. *)
Theorem getMostRecentFile_nothing_found
    {Remote : Type} (send : forall O : Type, Command O -> Remote -> Outcome O * Remote)
    (parse_other : string -> Number) (bucketName prefix : string)
    (w : World Remote) (response : ListObjectsV2.Output) (r : Remote) :
  send _ (ListObjectsV2Command
            {| ListObjectsV2.Bucket := bucketName; ListObjectsV2.Prefix := prefix |})
    (remote w) = (Resolved response, r) ->
  (ListObjectsV2.Contents response = None
   \/ exists keys,
        ListObjectsV2.Contents response = Some (List.map listed keys)
        /\ List.Forall (fun key => JsString.includes "_" key = false) keys) ->
  exists w',
    getMostRecentFile send parse_other bucketName prefix w = (Resolved None, w')
    /\ remote w' = r.
Proof.
  intros Hsend Hnone. rewrite getMostRecentFile_unfold, Hsend.
  assert (Hresult : most_recent parse_other response = Resolved None).
  { destruct Hnone as [E | (keys & E & Hall)].
    - unfold most_recent. now rewrite E.
    - rewrite (most_recent_listed parse_other response keys E).
      now rewrite (retained_nil_of_no_underscore keys Hall). }
  rewrite Hresult. eexists. split; reflexivity.
Qed.

Lemma getMostRecentFile_nothing_found_witness :
  exists w',
    getMostRecentFile (Listing.send ["report.pdf"; "notes.txt"]) no_other_dates
      "bucket" "" (Build_World tt []) = (Resolved None, w')
    /\ remote w' = tt.
Proof.
  apply (getMostRecentFile_nothing_found (Listing.send ["report.pdf"; "notes.txt"])
           no_other_dates "bucket" "" (Build_World tt []) _ tt eq_refl).
  right. eexists. split; [reflexivity|].
  repeat constructor.
Defined.

(** C8. When the GET succeeds but [response.Body] is not a Node stream
    (it is absent, or has another shape), both downloads are rejected
    with the download error that wraps "Unexpected response body type":
    neither a foreign error nor an empty result. *)
Theorem download_unexpected_body
    {Remote : Type} (send : forall O : Type, Command O -> Remote -> Outcome O * Remote)
    (decode_lossy : list byte -> Text) (bucketName filePath : string)
    (w : World Remote) (response : GetObject.Output) (r : Remote) :
  send _ (GetObjectCommand
            {| GetObject.Bucket := bucketName; GetObject.Key := filePath |})
    (remote w) = (Resolved response, r) ->
  (forall stream, GetObject.Body response <> Some (NodeStream stream)) ->
  let unexpected := DownloadError (Error "Unexpected response body type") in
  getFromS3 send decode_lossy bucketName filePath w
    = (Rejected unexpected, Build_World r (console w))
  /\ getFromS3AsBinary send bucketName filePath w
    = (Rejected unexpected, Build_World r (console w))
  /\ message unexpected = "Error retrieving from S3: Unexpected response body type".
Proof.
  intros Hsend Hshape unexpected.
  rewrite getFromS3_unfold, getFromS3AsBinary_unfold, Hsend.
  assert (Hd : drained response = Rejected (Error "Unexpected response body type")).
  { unfold drained. destruct (GetObject.Body response) as [[stream|]|]; trivial.
    now destruct (Hshape stream). }
  rewrite Hd. repeat split.
Qed.

Lemma download_unexpected_body_witness :
  let unexpected := DownloadError (Error "Unexpected response body type") in
  getFromS3 WebRuntime.send no_replacement "bucket" "key" (Build_World tt [])
    = (Rejected unexpected, Build_World tt [])
  /\ getFromS3AsBinary WebRuntime.send "bucket" "key" (Build_World tt [])
    = (Rejected unexpected, Build_World tt [])
  /\ message unexpected = "Error retrieving from S3: Unexpected response body type".
Proof.
  apply (download_unexpected_body WebRuntime.send no_replacement "bucket" "key"
           (Build_World tt []) _ tt eq_refl).
  intros stream. discriminate.
Defined.

(** C9, as the code has it.  [getMostRecentFile] is rejected in two
    cases only: the listing call is rejected, and its error reaches the
    caller as it is; or the listing resolves with contents in which some
    entry has no key, and [key.includes] throws a [TypeError].  Nothing
    is logged in either case. *)
Theorem getMostRecentFile_rejected_iff
    {Remote : Type} (send : forall O : Type, Command O -> Remote -> Outcome O * Remote)
    (parse_other : string -> Number) (bucketName prefix : string)
    (w w' : World Remote) (e : JsError) :
  getMostRecentFile send parse_other bucketName prefix w = (Rejected e, w')
  <->
  console w' = console w
  /\ let command :=
       ListObjectsV2Command
         {| ListObjectsV2.Bucket := bucketName; ListObjectsV2.Prefix := prefix |} in
     (send _ command (remote w) = (Rejected e, remote w')
      \/ exists response contents,
           send _ command (remote w) = (Resolved response, remote w')
           /\ ListObjectsV2.Contents response = Some contents
           /\ In None (List.map ListObjectsV2.Key contents)
           /\ e = TypeError_reading "includes").
Proof.
  rewrite getMostRecentFile_unfold. cbv zeta.
  destruct (send _ _ (remote w)) as [[response|e'] r]; split.
  - intros H. injection H as Hrecent <-. cbn [remote console].
    unfold most_recent in Hrecent. unfold logged.
    destruct (ListObjectsV2.Contents response) as [contents|] eqn:Hcontents;
      [|discriminate].
    destruct (filter_includes _) as [files|e'] eqn:Hfilter; [discriminate|].
    injection Hrecent as ->.
    destruct (filter_includes_rejected _ _ Hfilter) as [-> Hin].
    split.
    + destruct contents; [destruct Hin|]. apply app_nil_r.
    + right. now exists response, contents.
  - intros [Hconsole [H|(response' & contents & H & Hcontents & Hin & ->)]];
      [discriminate|].
    injection H as <- ->. unfold most_recent, logged. rewrite Hcontents.
    rewrite (filter_includes_keyless _ Hin).
    destruct w' as [r' c']. cbn [remote console] in *. subst c'.
    destruct contents; [destruct Hin|]. now rewrite app_nil_r.
  - intros H. injection H as -> <-. split; [reflexivity|now left].
  - intros [Hconsole [H|(response & contents & H & _)]]; [|discriminate].
    injection H as -> ->. destruct w' as [r' c']. cbn [remote console] in *.
    now subst.
Qed.

(** C9, as stated, fails: the listing resolves, one of its entries has no
    key, and the call is rejected with a [TypeError] that is not an error
    of the listing call. *)
Lemma keyless_entry_is_rejected :
  ~ (forall (send : forall O : Type, Command O -> unit -> Outcome O * unit)
       (parse_other : string -> Number) (bucketName prefix : string)
       (w w' : World unit) (e : JsError),
       getMostRecentFile send parse_other bucketName prefix w = (Rejected e, w') ->
       send _ (ListObjectsV2Command
                 {| ListObjectsV2.Bucket := bucketName;
                    ListObjectsV2.Prefix := prefix |})
         (remote w) = (Rejected e, remote w')).
Proof.
  intros claim.
  specialize (claim
                (Entries.send [listed "a_2024-06-15.pdf"; {| ListObjectsV2.Key := None |}])
                no_other_dates "bucket" "" (Build_World tt []) (Build_World tt [])
                (TypeError_reading "includes") eq_refl).
  discriminate claim.
Qed.

(** ** Claims about the remote store *)

Lemma memory_put_is_atomic : put_is_atomic MemoryStore.send id.
Proof.
  intros input r outcome r' H. simpl in H. unfold MemoryStore.put in H.
  destruct (_ || _); injection H as <- <-; [now left|now right].
Qed.

Lemma memory_put_commits : put_commits MemoryStore.send id.
Proof.
  intros input r output r' H. simpl in H. unfold MemoryStore.put in H.
  destruct (_ || _); [discriminate|]. now injection H as <- <-.
Qed.

Lemma memory_get_serves : get_serves MemoryStore.send id.
Proof.
  intros input r bytes H. simpl. unfold MemoryStore.get. unfold id in H. rewrite H.
  eexists _, _. split; [reflexivity|].
  unfold Buffer.concat. simpl. rewrite app_nil_r. apply firstn_skipn.
Qed.

Lemma lost_response_put_is_atomic : put_is_atomic LostResponse.send id.
Proof.
  intros input r outcome r' H. simpl in H. unfold MemoryStore.put in H.
  destruct (_ || _); injection H as <- <-; [now left|now right].
Qed.

(** A resolved upload leaves the payload's bytes stored under its key. *)
Lemma upload_stores
    {Remote : Type} (send : forall O : Type, Command O -> Remote -> Outcome O * Remote)
    (objects : Remote -> Objects)
    (bucketName filePath : string) (data : Payload) (mimeType : string)
    (w w1 : World Remote) (output : PutObject.Output) :
  put_commits send objects ->
  uploadToS3 send bucketName filePath data mimeType w = (Resolved output, w1) ->
  objects (remote w1) !! (bucketName, filePath) = Some (body_bytes data).
Proof.
  intros Hput Hup. rewrite uploadToS3_unfold in Hup.
  destruct (send _ _ (remote w)) as [[output'|e] r] eqn:Hsend; [|discriminate].
  injection Hup as -> <-. simpl.
  rewrite (Hput _ _ _ _ Hsend). unfold written. simpl. apply lookup_insert_eq.
Qed.

(** Both downloads of a stored object that the store serves. *)
Lemma served_downloads
    {Remote : Type} (send : forall O : Type, Command O -> Remote -> Outcome O * Remote)
    (objects : Remote -> Objects) (decode_lossy : list byte -> Text)
    (bucketName filePath : string) (w : World Remote) (bytes : list byte) :
  get_serves send objects ->
  objects (remote w) !! (bucketName, filePath) = Some bytes ->
  exists w',
    getFromS3AsBinary send bucketName filePath w = (Resolved bytes, w')
    /\ getFromS3 send decode_lossy bucketName filePath w
       = (Resolved (toString_utf8 decode_lossy bytes), w').
Proof.
  intros Hget Hstored.
  destruct (Hget {| GetObject.Bucket := bucketName; GetObject.Key := filePath |}
              (remote w) bytes Hstored) as (chunks & r & Hsent & Hbytes).
  rewrite getFromS3_unfold, getFromS3AsBinary_unfold, Hsent. unfold drained. simpl.
  rewrite Hbytes. eexists. split; reflexivity.
Qed.

(** C1. Against a store that commits a PUT it acknowledges and serves
    what it stores: once [uploadToS3] has resolved, [getFromS3AsBinary]
    of the same bucket and key, in any later state in which that object
    was not written again, resolves with exactly the bytes of the
    payload. *)
Theorem upload_then_download_binary
    {Remote : Type} (send : forall O : Type, Command O -> Remote -> Outcome O * Remote)
    (objects : Remote -> Objects)
    (bucketName filePath : string) (data : Payload) (mimeType : string)
    (w w1 w2 : World Remote) (output : PutObject.Output) :
  put_commits send objects ->
  get_serves send objects ->
  uploadToS3 send bucketName filePath data mimeType w = (Resolved output, w1) ->
  objects (remote w2) !! (bucketName, filePath)
    = objects (remote w1) !! (bucketName, filePath) ->
  exists w3,
    getFromS3AsBinary send bucketName filePath w2 = (Resolved (body_bytes data), w3).
Proof.
  intros Hput Hget Hup Hsame.
  rewrite (upload_stores send objects _ _ _ _ _ _ _ Hput Hup) in Hsame.
  destruct (served_downloads send objects (fun _ => []) _ _ _ _ Hget Hsame)
    as (w3 & Hbinary & _).
  now exists w3.
Qed.

Lemma upload_then_download_binary_witness :
  let data := BinaryBody [Byte.x25; Byte.x50; Byte.x44; Byte.x46; Byte.x00; Byte.xff] in
  let w := Build_World (∅ : Objects) [] in
  let w1 := snd (uploadToS3 MemoryStore.send "bucket" "a_2024-06-15.pdf" data
                   "application/pdf" w) in
  exists w3,
    getFromS3AsBinary MemoryStore.send "bucket" "a_2024-06-15.pdf" w1
    = (Resolved (body_bytes data), w3).
Proof.
  intros data w w1.
  apply (upload_then_download_binary MemoryStore.send id "bucket" "a_2024-06-15.pdf"
           data "application/pdf" w w1 w1 {| PutObject.ETag := None |}
           memory_put_commits memory_get_serves).
  - reflexivity.
  - reflexivity.
Defined.

(** The text download is the binary download followed by decoding, for
    every client and every settlement. *)
Lemma getFromS3_then_toString
    {Remote : Type} (send : forall O : Type, Command O -> Remote -> Outcome O * Remote)
    (decode_lossy : list byte -> Text) (bucketName filePath : string)
    (w : World Remote) :
  getFromS3 send decode_lossy bucketName filePath w
  = then_ (toString_utf8 decode_lossy) (getFromS3AsBinary send bucketName filePath w).
Proof.
  rewrite getFromS3_unfold, getFromS3AsBinary_unfold.
  destruct (send _ _ (remote w)) as [[response|e] r]; [|reflexivity].
  now destruct (drained response).
Qed.

Lemma toString_utf8_valid (decode_lossy : list byte -> Text) (bytes : list byte)
    (text : Text) :
  Utf8.decode bytes = Some text -> toString_utf8 decode_lossy bytes = text.
Proof. intros E. unfold toString_utf8. now rewrite E. Qed.

(** C2. [getFromS3] is [getFromS3AsBinary] followed by UTF-8 decoding;
    and for a stored object whose bytes are well-formed UTF-8, served by
    the store, it resolves with the text those bytes decode to. *)
Theorem download_text_decodes_utf8
    {Remote : Type} (send : forall O : Type, Command O -> Remote -> Outcome O * Remote)
    (objects : Remote -> Objects) (decode_lossy : list byte -> Text)
    (bucketName filePath : string) (w : World Remote) :
  getFromS3 send decode_lossy bucketName filePath w
  = then_ (toString_utf8 decode_lossy) (getFromS3AsBinary send bucketName filePath w)
  /\ forall bytes text,
       get_serves send objects ->
       objects (remote w) !! (bucketName, filePath) = Some bytes ->
       Utf8.decode bytes = Some text ->
       exists w',
         getFromS3AsBinary send bucketName filePath w = (Resolved bytes, w')
         /\ getFromS3 send decode_lossy bucketName filePath w = (Resolved text, w').
Proof.
  split; [apply getFromS3_then_toString|].
  intros bytes text Hget Hstored Hvalid.
  destruct (served_downloads send objects decode_lossy _ _ _ _ Hget Hstored)
    as (w' & Hbinary & Htext).
  exists w'. split; [exact Hbinary|].
  now rewrite Htext, (toString_utf8_valid decode_lossy bytes text Hvalid).
Qed.

Lemma download_text_decodes_utf8_witness :
  let bytes := [Byte.x48; Byte.xc3; Byte.xa9; Byte.xe2; Byte.x82; Byte.xac;
                Byte.xf0; Byte.x9f; Byte.x98; Byte.x80] in
  let w := Build_World (<[("bucket", "greeting.txt") := bytes]> (∅ : Objects)) [] in
  exists w',
    getFromS3AsBinary MemoryStore.send "bucket" "greeting.txt" w = (Resolved bytes, w')
    /\ getFromS3 MemoryStore.send no_replacement "bucket" "greeting.txt" w
       = (Resolved [72; 233; 8364; 128512], w').
Proof.
  intros bytes w.
  apply (proj2 (download_text_decodes_utf8 MemoryStore.send id no_replacement
                  "bucket" "greeting.txt" w) bytes [72; 233; 8364; 128512]
           memory_get_serves).
  - reflexivity.
  - reflexivity.
Defined.

(** X6. Text survives the round trip: a string of scalar values that was
    uploaded is what [getFromS3] returns. *)
Corollary upload_then_download_text
    {Remote : Type} (send : forall O : Type, Command O -> Remote -> Outcome O * Remote)
    (objects : Remote -> Objects) (decode_lossy : list byte -> Text)
    (bucketName filePath : string) (text : Text) (mimeType : string)
    (w w1 w2 : World Remote) (output : PutObject.Output) :
  put_commits send objects ->
  get_serves send objects ->
  List.Forall (fun cp => Utf8.is_scalar cp = true) text ->
  uploadToS3 send bucketName filePath (TextBody text) mimeType w
    = (Resolved output, w1) ->
  objects (remote w2) !! (bucketName, filePath)
    = objects (remote w1) !! (bucketName, filePath) ->
  exists w3,
    getFromS3 send decode_lossy bucketName filePath w2 = (Resolved text, w3).
Proof.
  intros Hput Hget Hscalar Hup Hsame.
  rewrite (upload_stores send objects _ _ _ _ _ _ _ Hput Hup) in Hsame.
  destruct (served_downloads send objects decode_lossy _ _ _ _ Hget Hsame)
    as (w3 & _ & Htext).
  exists w3. rewrite Htext. simpl.
  now rewrite (toString_utf8_valid decode_lossy _ text (decode_encode text Hscalar)).
Qed.

(** C7, as the code has it.  When the send of the upload fails with [e],
    [uploadToS3] is rejected with the upload error whose message is
    "Error uploading to S3: " followed by the message of [e], and it
    issues no further request: the store is as that send left it, so that
    against an atomic store the object at (bucket, key) is either what it
    was or the complete new payload. *)
Theorem upload_failure_wraps_cause
    {Remote : Type} (send : forall O : Type, Command O -> Remote -> Outcome O * Remote)
    (objects : Remote -> Objects)
    (bucketName filePath : string) (data : Payload) (mimeType : string)
    (w : World Remote) (e : JsError) (r : Remote) :
  put_is_atomic send objects ->
  send _ (PutObjectCommand
            {| PutObject.Bucket := bucketName; PutObject.Key := filePath;
               PutObject.Body := data; PutObject.ContentType := mimeType |})
    (remote w) = (Rejected e, r) ->
  uploadToS3 send bucketName filePath data mimeType w
    = (Rejected (UploadError e), Build_World r (console w))
  /\ message (UploadError e) = "Error uploading to S3: " ++ message e
  /\ (objects r !! (bucketName, filePath) = objects (remote w) !! (bucketName, filePath)
      \/ objects r !! (bucketName, filePath) = Some (body_bytes data)).
Proof.
  intros Hatomic Hsend. rewrite uploadToS3_unfold, Hsend.
  repeat split.
  destruct (Hatomic _ _ _ _ Hsend) as [-> | ->]; [now left|right].
  unfold written. simpl. apply lookup_insert_eq.
Qed.

Lemma upload_failure_wraps_cause_witness :
  let data := BinaryBody [Byte.x01; Byte.x02] in
  let w := Build_World (∅ : Objects) [] in
  uploadToS3 MemoryStore.send "" "key" data "text/plain" w
    = (Rejected (UploadError MemoryStore.InvalidName), Build_World ∅ [])
  /\ message (UploadError MemoryStore.InvalidName)
     = "Error uploading to S3: " ++ message MemoryStore.InvalidName
  /\ ((∅ : Objects) !! ("", "key") = (∅ : Objects) !! ("", "key")
      \/ (∅ : Objects) !! ("", "key") = Some (body_bytes data)).
Proof.
  intros data w.
  apply (upload_failure_wraps_cause MemoryStore.send id "" "key" data "text/plain" w
           MemoryStore.InvalidName ∅ memory_put_is_atomic).
  reflexivity.
Defined.

(** C7, as stated, fails: a store may commit the object and lose the
    response.  The send then fails, the upload is rejected, and the
    object at (bucket, key) has changed. *)
Lemma upload_failure_store_changed :
  ~ (forall (send : forall O : Type, Command O -> Objects -> Outcome O * Objects)
       (bucketName filePath : string) (data : Payload) (mimeType : string)
       (w : World Objects) (e : JsError) (r : Objects),
       put_is_atomic send id ->
       send _ (PutObjectCommand
                 {| PutObject.Bucket := bucketName; PutObject.Key := filePath;
                    PutObject.Body := data; PutObject.ContentType := mimeType |})
         (remote w) = (Rejected e, r) ->
       exists w',
         uploadToS3 send bucketName filePath data mimeType w
           = (Rejected (UploadError e), w')
         /\ remote w' !! (bucketName, filePath) = remote w !! (bucketName, filePath)).
Proof.
  intros claim.
  destruct (claim LostResponse.send "bucket" "key" (BinaryBody [Byte.x01])
              "application/octet-stream" (Build_World ∅ []) LostResponse.Timeout
              (<[("bucket", "key") := [Byte.x01]]> ∅)
              lost_response_put_is_atomic eq_refl) as (w' & Hup & Hsame).
  rewrite uploadToS3_unfold in Hup. simpl in Hup. injection Hup as <-.
  simpl in Hsame. rewrite lookup_insert_eq, lookup_empty in Hsame. discriminate.
Qed.

(** ** Claims about the date token *)

Lemma length_substring (s : string) (n m : nat) :
  String.length (substring n m s) = Nat.min m (String.length s - n).
Proof.
  revert n m. induction s as [|c s IH]; intros [|n] [|m]; simpl; trivial;
    rewrite IH; simpl; rewrite ?Nat.sub_0_r; reflexivity.
Qed.

(** [slice(-14, -4)] of a key of at least 14 code units. *)
Lemma slice_long (key : string) :
  (14 <= String.length key)%nat ->
  JsString.slice (-14) (-4) key = substring (String.length key - 14) 10 key.
Proof.
  intros Hlen. unfold JsString.slice, JsString.relative_index. simpl.
  f_equal; lia.
Qed.

(** [slice(-14, -4)] of a shorter key: the start is clamped to 0. *)
Lemma slice_short (key : string) :
  (String.length key < 14)%nat ->
  JsString.slice (-14) (-4) key = substring 0 (String.length key - 4) key.
Proof.
  intros Hlen. unfold JsString.slice, JsString.relative_index. simpl.
  f_equal; lia.
Qed.

Lemma parse_iso_date_length (s : string) (tv : Z) :
  JsDate.parse_iso_date s = Some tv -> String.length s = 10%nat.
Proof.
  unfold JsDate.parse_iso_date.
  do 11 (destruct s as [|? s]; simpl; try discriminate). reflexivity.
Qed.

(** C5. Every key retained by the underscore filter that has at least
    14 code units is ranked by [getMostRecentFile] on the date parsed
    from exactly its 10 code units at positions length-14 to length-5,
    those that end 4 before the end of the key: this token is what the
    comparator hands to [Date], and, when the tokens parse, the key
    returned is the first one whose token carries the latest date. *)
Theorem sort_date_token
    {Remote : Type} (send : forall O : Type, Command O -> Remote -> Outcome O * Remote)
    (parse_other : string -> Number) (bucketName prefix : string)
    (w : World Remote) (response : ListObjectsV2.Output) (r : Remote)
    (keys : list string) :
  send _ (ListObjectsV2Command
            {| ListObjectsV2.Bucket := bucketName; ListObjectsV2.Prefix := prefix |})
    (remote w) = (Resolved response, r) ->
  ListObjectsV2.Contents response = Some (List.map listed keys) ->
  (forall key, In key (retained keys) -> (14 <= String.length key)%nat) ->
  (forall key, In key (retained keys) ->
     JsString.slice (-14) (-4) key = date_token key
     /\ String.length (date_token key) = 10%nat
     /\ (forall i, (i < 10)%nat ->
           String.get i (date_token key)
           = String.get (String.length key - 14 + i) key)
     /\ sortDate parse_other key = JsDate.getTime parse_other (date_token key)
     /\ (forall other,
           compareFn parse_other key other
           = number_sub (sortDate parse_other other)
               (JsDate.getTime parse_other (date_token key)))
     /\ (forall other,
           compareFn parse_other other key
           = number_sub (JsDate.getTime parse_other (date_token key))
               (sortDate parse_other other)))
  /\ ((forall key, In key (retained keys) ->
         exists t, JsDate.getTime parse_other (date_token key) = Some t) ->
      retained keys <> [] ->
      exists key t before after,
        getMostRecentFile send parse_other bucketName prefix w
        = (Resolved (Some key), Build_World r (console w))
        /\ retained keys = (before ++ key :: after)%list
        /\ JsDate.getTime parse_other (date_token key) = Some t
        /\ (forall k, In k before ->
              exists tk,
                JsDate.getTime parse_other (date_token k) = Some tk /\ tk < t)
        /\ (forall k, In k after ->
              exists tk,
                JsDate.getTime parse_other (date_token k) = Some tk /\ tk <= t)).
Proof.
  intros Hsend Hcontents Hlong.
  assert (Hdate : forall key, In key (retained keys) ->
            sortDate parse_other key = JsDate.getTime parse_other (date_token key)).
  { intros key Hkey. unfold sortDate, date_token.
    now rewrite (slice_long key (Hlong key Hkey)). }
  split.
  - intros key Hkey. pose proof (Hlong key Hkey) as Hlen.
    pose proof (Hdate key Hkey) as Hk.
    split; [now apply slice_long|]. split; [|split; [|split; [exact Hk|split]]].
    + unfold date_token. rewrite length_substring. lia.
    + intros i Hi. unfold date_token. rewrite substring_correct1 by trivial.
      f_equal. lia.
    + intros other. unfold compareFn. now rewrite Hk.
    + intros other. unfold compareFn. now rewrite Hk.
  - intros Hparse Hsome.
    assert (Hdated : List.Forall (dated parse_other) (retained keys)).
    { apply List.Forall_forall. intros k Hk.
      destruct (Hparse k Hk) as [t Ht]. exists t. now rewrite Hdate. }
    destruct (head_sort_is_Some (compareFn parse_other) _ Hsome) as [key Hkey].
    destruct (head_sort_first_latest parse_other _ _ Hdated Hkey)
      as (before & after & Hsplit & Hb & Ha).
    assert (Hin : forall k, In k before \/ k = key \/ In k after ->
                            In k (retained keys)).
    { intros k Hk. rewrite Hsplit. apply in_or_app.
      destruct Hk as [Hk|[->|Hk]]; [now left|right; now left|right; now right]. }
    destruct (Hparse key (Hin key (or_intror (or_introl eq_refl)))) as [t Ht].
    exists key, t, before, after.
    split; [|split; [exact Hsplit|split; [exact Ht|split]]].
    + rewrite getMostRecentFile_unfold, Hsend.
      rewrite (most_recent_listed parse_other response keys Hcontents), Hkey.
      rewrite (logged_listed response keys Hcontents); [now rewrite app_nil_r|].
      intros ->. now apply Hsome.
    + intros k Hk. destruct (Hb k Hk) as (tk & t' & Ek & Et & Hlt).
      rewrite Hdate in Ek by (apply Hin; now left).
      rewrite Hdate in Et by (apply Hin; right; now left).
      rewrite Ht in Et. injection Et as <-. now exists tk.
    + intros k Hk. destruct (Ha k Hk) as (tk & t' & Ek & Et & Hle).
      rewrite Hdate in Ek by (apply Hin; right; now right).
      rewrite Hdate in Et by (apply Hin; right; now left).
      rewrite Ht in Et. injection Et as <-. now exists tk.
Qed.

Lemma sort_date_token_witness :
  let keys := ["notes.txt"; "a/report_2024-01-01.pdf"; "report_2024-06-15.pdf"] in
  exists key t before after,
    getMostRecentFile (Listing.send keys) no_other_dates "bucket" ""
      (Build_World tt [])
    = (Resolved (Some key), Build_World tt [])
    /\ retained keys = (before ++ key :: after)%list
    /\ JsDate.getTime no_other_dates (date_token key) = Some t
    /\ (forall k, In k before ->
          exists tk,
            JsDate.getTime no_other_dates (date_token k) = Some tk /\ tk < t)
    /\ (forall k, In k after ->
          exists tk,
            JsDate.getTime no_other_dates (date_token k) = Some tk /\ tk <= t).
Proof.
  intros keys.
  apply (proj2 (sort_date_token (Listing.send keys) no_other_dates "bucket" ""
                  (Build_World tt []) _ tt keys eq_refl eq_refl
                  ltac:(intros key [<-|[<-|[]]]; simpl; lia))).
  - intros key [<-|[<-|[]]]; eexists; reflexivity.
  - discriminate.
Defined.

Lemma retained_In (keys : list string) (key : string) :
  In key (retained keys) <-> In key keys /\ JsString.includes "_" key = true.
Proof. unfold retained. apply filter_In. Qed.

(** C10. A listed key with an underscore and fewer than 14 code units is
    neither skipped nor an error.  It is among the keys that are sorted
    and the call resolves with a key.  The comparator ranks it by the
    clamped substring from position 0 to length-4, which has fewer than
    10 code units, is never read as a calendar date [YYYY-MM-DD], and is
    dated by the engine's fallback parser alone.  On that date the key
    wins or loses: it is returned when its date is strictly later than
    that of every other qualifying key, when it is the only qualifying
    key, and not when, all being dated, another one is later. *)
Theorem short_key_is_ranked
    {Remote : Type} (send : forall O : Type, Command O -> Remote -> Outcome O * Remote)
    (parse_other : string -> Number) (bucketName prefix : string)
    (w : World Remote) (response : ListObjectsV2.Output) (r : Remote)
    (keys : list string) (key : string) :
  send _ (ListObjectsV2Command
            {| ListObjectsV2.Bucket := bucketName; ListObjectsV2.Prefix := prefix |})
    (remote w) = (Resolved response, r) ->
  ListObjectsV2.Contents response = Some (List.map listed keys) ->
  In key keys ->
  JsString.includes "_" key = true ->
  (String.length key < 14)%nat ->
  let token := substring 0 (String.length key - 4) key in
  let returns result :=
    getMostRecentFile send parse_other bucketName prefix w
    = (Resolved (Some result), Build_World r (console w)) in
  In key (JsArray.sort (compareFn parse_other) (retained keys))
  /\ (exists result, returns result)
  /\ JsString.slice (-14) (-4) key = token
  /\ String.length token = (String.length key - 4)%nat
  /\ (String.length token < 10)%nat
  /\ JsDate.parse_iso_date token = None
  /\ sortDate parse_other key = parse_other token
  /\ (forall other,
        compareFn parse_other key other
        = number_sub (sortDate parse_other other) (parse_other token))
  /\ (forall other,
        compareFn parse_other other key
        = number_sub (parse_other token) (sortDate parse_other other))
  /\ (forall t,
        parse_other token = Some t ->
        (forall k, In k (retained keys) -> k <> key ->
           exists tk, sortDate parse_other k = Some tk /\ tk < t) ->
        returns key)
  /\ ((forall k, In k (retained keys) -> k = key) -> returns key)
  /\ (forall t k tk,
        parse_other token = Some t ->
        List.Forall (dated parse_other) (retained keys) ->
        In k (retained keys) ->
        sortDate parse_other k = Some tk ->
        t < tk ->
        ~ returns key).
Proof.
  intros Hsend Hcontents Hlisted Hunderscore Hlen token returns.
  assert (Hkept : In key (retained keys)) by now apply retained_In.
  assert (Hslice : JsString.slice (-14) (-4) key = token) by now apply slice_short.
  assert (Htoken : String.length token = (String.length key - 4)%nat).
  { unfold token. rewrite length_substring. lia. }
  assert (Hiso : JsDate.parse_iso_date token = None).
  { destruct (JsDate.parse_iso_date token) as [tv|] eqn:E; trivial.
    apply parse_iso_date_length in E. lia. }
  assert (Hdate : sortDate parse_other key = parse_other token).
  { unfold sortDate, JsDate.getTime. now rewrite Hslice, Hiso. }
  assert (Hsome : retained keys <> []).
  { intros E. rewrite E in Hkept. destruct Hkept. }
  assert (Hrun : forall result,
            List.head (JsArray.sort (compareFn parse_other) (retained keys))
            = Some result <-> returns result).
  { intros result. unfold returns.
    rewrite getMostRecentFile_unfold, Hsend.
    rewrite (most_recent_listed parse_other response keys Hcontents).
    rewrite (logged_listed response keys Hcontents), app_nil_r
      by (intros ->; now apply Hsome).
    split; [now intros ->|]. intros H. now injection H. }
  split; [|split; [|split; [exact Hslice|split; [exact Htoken|split; [lia|
    split; [exact Hiso|split; [exact Hdate|split; [|split; [|split; [|split]]]]]]]]]].
  - apply (Permutation_in key (Permutation_sym (sort_perm _ _)) Hkept).
  - destruct (head_sort_is_Some (compareFn parse_other) (retained keys) Hsome)
      as [result Hresult].
    exists result. now apply Hrun.
  - intros other. unfold compareFn. now rewrite Hdate.
  - intros other. unfold compareFn. now rewrite Hdate.
  - intros t Ht Hothers. apply Hrun. apply unique_latest_head; trivial.
    + exists t. now rewrite Hdate.
    + intros k Hk Hne. destruct (Hothers k Hk Hne) as (tk & Ek & Hlt).
      exists tk, t. now rewrite Hdate.
  - intros Honly.
    destruct (head_sort_is_Some (compareFn parse_other) (retained keys) Hsome)
      as [result Hresult].
    apply Hrun. rewrite Hresult. f_equal.
    apply Honly. now apply head_sort_In in Hresult.
  - intros t k tk Ht Hdated Hk Ek Hlt Hreturned. apply Hrun in Hreturned.
    destruct (first_latest_max_of_head parse_other _ _ Hdated Hreturned k Hk)
      as (tk' & t' & Ek' & Et' & Hle).
    rewrite Ek in Ek'. rewrite Hdate, Ht in Et'.
    injection Ek' as <-. injection Et' as <-. lia.
Qed.

Lemma short_key_is_ranked_witness :
  let keys := ["report_2024-06-15.pdf"; "2030-07_.md"] in
  getMostRecentFile (Listing.send keys) reads_2030_07 "bucket" "" (Build_World tt [])
  = (Resolved (Some "2030-07_.md"), Build_World tt [])
  /\ compareFn reads_2030_07 "2030-07_.md" "report_2024-06-15.pdf"
     = number_sub (sortDate reads_2030_07 "report_2024-06-15.pdf")
         (reads_2030_07 "2030-07")
  /\ JsString.slice (-14) (-4) "2030-07_.md" = "2030-07".
Proof.
  intros keys.
  destruct (short_key_is_ranked (Listing.send keys) reads_2030_07 "bucket" ""
              (Build_World tt []) _ tt keys "2030-07_.md" eq_refl eq_refl)
    as (_ & _ & Hslice & _ & _ & _ & _ & Hcompare & _ & Hwins & _).
  - simpl. right. now left.
  - reflexivity.
  - simpl. lia.
  - split; [|split; [apply Hcompare|exact Hslice]].
    apply (Hwins 1909094400000 eq_refl).
    intros k [<-|[<-|[]]] Hne.
    + exists 1718409600000. split; [reflexivity|lia].
    + now destruct Hne.
Defined.

(** ** Claims about the key that is returned *)

Lemma earlier_tokens_differ (parse_other : string -> Number) (a b : string) :
  earlier parse_other a b ->
  JsString.slice (-14) (-4) a <> JsString.slice (-14) (-4) b.
Proof.
  intros (ta & tb & Ea & Eb & Hlt) Heq. unfold sortDate in Ea, Eb.
  rewrite Heq, Eb in Ea. injection Ea as ->. lia.
Qed.

Lemma first_latest_max (parse_other : string -> Number) (key : string)
    (files : list string) :
  dated parse_other key ->
  first_latest parse_other key files ->
  forall k, In k files -> not_later parse_other k key.
Proof.
  intros Hkey (before & after & -> & Hb & Ha) k Hin.
  apply in_app_or in Hin as [Hin|[<-|Hin]].
  - now apply earlier_not_later, Hb.
  - now apply not_later_refl.
  - now apply Ha.
Qed.

(** C4. After a listing with contents, [getMostRecentFile] resolves, and
    - the key it returns is a listed key with an underscore: keys
      without one are never returned and take no part in the ranking;
    - a key is returned as soon as one listed key has an underscore;
    - when the date token of every key with an underscore parses, no
      such key carries a later date than the returned one;
    - on report.pdf, report_2024-01-01.pdf, report_2024-06-15.pdf it
      returns report_2024-06-15.pdf, whatever the engine's fallback
      date parser. *)
Theorem most_recent_has_latest_date
    {Remote : Type} (send : forall O : Type, Command O -> Remote -> Outcome O * Remote)
    (parse_other : string -> Number) (bucketName prefix : string)
    (w : World Remote) (response : ListObjectsV2.Output) (r : Remote)
    (keys : list string) :
  send _ (ListObjectsV2Command
            {| ListObjectsV2.Bucket := bucketName; ListObjectsV2.Prefix := prefix |})
    (remote w) = (Resolved response, r) ->
  ListObjectsV2.Contents response = Some (List.map listed keys) ->
  (exists result w',
     getMostRecentFile send parse_other bucketName prefix w = (Resolved result, w')
     /\ result = List.head (JsArray.sort (compareFn parse_other) (retained keys))
     /\ (forall key, result = Some key ->
           In key keys
           /\ JsString.includes "_" key = true)
     /\ (retained keys <> [] -> exists key, result = Some key)
     /\ (List.Forall (dated parse_other) (retained keys) ->
         forall key, result = Some key ->
         forall k, In k (retained keys) -> not_later parse_other k key))
  /\ fst (getMostRecentFile
            (Listing.send
               ["report.pdf"; "report_2024-01-01.pdf"; "report_2024-06-15.pdf"])
            parse_other bucketName prefix (Build_World tt []))
     = Resolved (Some "report_2024-06-15.pdf").
Proof.
  intros Hsend Hcontents. split; [|reflexivity].
  rewrite getMostRecentFile_unfold, Hsend.
  rewrite (most_recent_listed parse_other response keys Hcontents).
  eexists _, _. split; [reflexivity|].
  split; [reflexivity|]. split; [|split].
  - intros key Hkey. now apply head_sort_In, retained_In in Hkey.
  - apply head_sort_is_Some.
  - intros Hdated key Hkey.
    apply first_latest_max.
    + rewrite List.Forall_forall in Hdated. apply Hdated.
      now apply head_sort_In in Hkey.
    + now apply head_sort_first_latest.
Qed.

Lemma most_recent_has_latest_date_witness :
  let keys := ["report.pdf"; "report_2024-01-01.pdf"; "report_2024-06-15.pdf"] in
  exists key,
    fst (getMostRecentFile (Listing.send keys) no_other_dates "bucket" "report"
           (Build_World tt []))
    = Resolved (Some key)
    /\ JsString.includes "_" key = true
    /\ forall k, In k (retained keys) -> not_later no_other_dates k key.
Proof.
  intros keys.
  destruct (most_recent_has_latest_date (Listing.send keys) no_other_dates
              "bucket" "report" (Build_World tt []) _ tt keys eq_refl eq_refl)
    as [(result & w' & Hrun & _ & Hlisted & Hsome & Hlatest) _].
  destruct Hsome as [key ->]; [discriminate|].
  exists key. split; [now rewrite Hrun|]. split; [now apply Hlisted|].
  apply Hlatest; [|reflexivity].
  repeat constructor; eexists; reflexivity.
Defined.

(** C6. When every date token parses and some key qualifies, a key is
    returned, and it is the first, in listing order, of those that carry
    the latest date: every qualifying key listed before it has a strictly
    earlier date, hence another date token, and none has a later date.
    The result is a function of the listing response alone: a second run
    on the same response returns the same key. *)
Theorem tie_goes_to_first_listed
    {Remote : Type} (send : forall O : Type, Command O -> Remote -> Outcome O * Remote)
    (parse_other : string -> Number) (bucketName prefix : string)
    (w : World Remote) (response : ListObjectsV2.Output) (r : Remote)
    (keys : list string) :
  send _ (ListObjectsV2Command
            {| ListObjectsV2.Bucket := bucketName; ListObjectsV2.Prefix := prefix |})
    (remote w) = (Resolved response, r) ->
  ListObjectsV2.Contents response = Some (List.map listed keys) ->
  List.Forall (dated parse_other) (retained keys) ->
  retained keys <> [] ->
  exists key,
    fst (getMostRecentFile send parse_other bucketName prefix w) = Resolved (Some key)
    /\ (exists before after,
          retained keys = (before ++ key :: after)%list
          /\ (forall k, In k before ->
                earlier parse_other k key
                /\ JsString.slice (-14) (-4) k <> JsString.slice (-14) (-4) key)
          /\ (forall k, In k after -> not_later parse_other k key))
    /\ (forall (w2 : World Remote) (r2 : Remote),
          send _ (ListObjectsV2Command
                    {| ListObjectsV2.Bucket := bucketName;
                       ListObjectsV2.Prefix := prefix |})
            (remote w2) = (Resolved response, r2) ->
          fst (getMostRecentFile send parse_other bucketName prefix w2)
          = Resolved (Some key)).
Proof.
  intros Hsend Hcontents Hdated Hsome.
  destruct (head_sort_is_Some (compareFn parse_other) _ Hsome) as [key Hkey].
  assert (Hrecent : most_recent parse_other response = Resolved (Some key)).
  { now rewrite (most_recent_listed parse_other response keys Hcontents), Hkey. }
  exists key. split; [|split].
  - rewrite getMostRecentFile_unfold, Hsend. simpl. now rewrite Hrecent.
  - destruct (head_sort_first_latest parse_other _ _ Hdated Hkey)
      as (before & after & Hsplit & Hb & Ha).
    exists before, after. split; [exact Hsplit|]. split; [|exact Ha].
    intros k Hin. split; [now apply Hb|].
    now apply (earlier_tokens_differ parse_other), Hb.
  - intros w2 r2 Hsend2. rewrite getMostRecentFile_unfold, Hsend2. simpl.
    now rewrite Hrecent.
Qed.

Lemma tie_goes_to_first_listed_witness :
  let keys := ["b_2024-01-01.pdf"; "c_2024-06-15.pdf"; "a_2024-06-15.pdf"] in
  fst (getMostRecentFile (Listing.send keys) no_other_dates "bucket" ""
         (Build_World tt []))
  = Resolved (Some "c_2024-06-15.pdf")
  /\ exists key,
       fst (getMostRecentFile (Listing.send keys) no_other_dates "bucket" ""
              (Build_World tt []))
       = Resolved (Some key)
       /\ (exists before after,
             retained keys
             = (before ++ key :: after)%list
             /\ (forall k, In k before ->
                   earlier no_other_dates k key
                   /\ JsString.slice (-14) (-4) k <> JsString.slice (-14) (-4) key)
             /\ (forall k, In k after -> not_later no_other_dates k key))
       /\ (forall (w2 : World unit) (r2 : unit),
             Listing.send keys _
               (ListObjectsV2Command
                  {| ListObjectsV2.Bucket := "bucket"; ListObjectsV2.Prefix := "" |})
               (remote w2)
             = (Resolved
                  {| ListObjectsV2.Contents := Some (List.map listed keys) |}, r2) ->
             fst (getMostRecentFile (Listing.send keys) no_other_dates "bucket" "" w2)
             = Resolved (Some key)).
Proof.
  intros keys. split; [reflexivity|].
  apply (tie_goes_to_first_listed (Listing.send keys) no_other_dates "bucket" ""
           (Build_World tt []) _ tt keys
           eq_refl eq_refl).
  - repeat constructor; eexists; reflexivity.
  - discriminate.
Defined.

(** ** Keys whose token is not a date *)

(** When every comparison is a tie (as when every difference is NaN), a
    stable sort leaves the array as it is. *)
Lemma sort_ties_keep_order {A : Type} (comparefn : A -> A -> Number) (l : list A) :
  (forall x y, In x l -> In y l -> JsArray.SortCompare comparefn x y = 0) ->
  JsArray.sort comparefn l = l.
Proof.
  induction l as [|x rest IH]; intros Hties; simpl; [reflexivity|].
  rewrite IH by (intros a b Ha Hb; apply Hties; now right).
  destruct rest as [|y rest']; simpl; [reflexivity|].
  rewrite (Hties x y); [reflexivity|now left|right; now left].
Qed.

(** C4, as stated, fails when a qualifying key carries no date: its
    comparisons are NaN, hence ties, and listed first it is returned
    ahead of the only dated key. *)
Lemma undated_key_is_returned :
  ~ (forall (parse_other : string -> Number) (keys : list string) (key : string),
       fst (getMostRecentFile (Listing.send keys) parse_other "bucket" ""
              (Build_World tt []))
       = Resolved (Some key) ->
       forall k,
         In k (retained keys) ->
         dated parse_other k ->
         not_later parse_other k key).
Proof.
  intros claim.
  destruct (claim no_other_dates ["x_notadate!.pdf"; "report_2024-06-15.pdf"]
              "x_notadate!.pdf" eq_refl "report_2024-06-15.pdf")
    as (t & tx & _ & Hx & _).
  - simpl. right. now left.
  - now exists 1718409600000.
  - discriminate Hx.
Qed.

(** C6, as stated, fails in the same way: two keys tie on the latest
    date, and the key returned is a third one, listed before them, whose
    token is not a date. *)
Lemma tie_lost_to_undated_key :
  ~ (forall (parse_other : string -> Number) (keys : list string) (a b : string),
       let files := retained keys in
       a <> b -> In a files -> In b files ->
       JsString.slice (-14) (-4) a = JsString.slice (-14) (-4) b ->
       dated parse_other a ->
       (forall k, In k files -> dated parse_other k -> not_later parse_other k a) ->
       exists key,
         fst (getMostRecentFile (Listing.send keys) parse_other "bucket" ""
                (Build_World tt []))
         = Resolved (Some key)
         /\ JsString.slice (-14) (-4) key = JsString.slice (-14) (-4) a).
Proof.
  intros claim.
  destruct (claim no_other_dates
              ["x_notadate!.pdf"; "a_2024-06-15.pdf"; "b_2024-06-15.pdf"]
              "a_2024-06-15.pdf" "b_2024-06-15.pdf")
    as (key & Hrun & Htoken).
  - discriminate.
  - simpl. right. now left.
  - simpl. right. right. now left.
  - reflexivity.
  - now exists 1718409600000.
  - intros k [<-|[<-|[<-|[]]]] Hk.
    + destruct Hk as [t Ht]. discriminate Ht.
    + now apply not_later_refl.
    + exists 1718409600000, 1718409600000. repeat split. lia.
  - simpl in Hrun. injection Hrun as <-. discriminate Htoken.
Qed.

(** * Further properties of the methods *)

(** ** Downloads *)

(** X1. Every rejection of a download is a wrapped one: a plain [Error]
    whose message is "Error retrieving from S3: " followed by the message
    of its cause, and the cause is the error of the send, the error the
    stream was destroyed with, or "Unexpected response body type". *)
Theorem download_rejection_is_wrapped
    {Remote : Type} (send : forall O : Type, Command O -> Remote -> Outcome O * Remote)
    (decode_lossy : list byte -> Text) (bucketName filePath : string)
    (w w' : World Remote) (e : JsError) :
  getFromS3 send decode_lossy bucketName filePath w = (Rejected e, w')
  \/ getFromS3AsBinary send bucketName filePath w = (Rejected e, w') ->
  exists cause,
    e = {| name := "Error";
           message := "Error retrieving from S3: " ++ message cause |}
    /\ console w' = console w
    /\ let command :=
         GetObjectCommand
           {| GetObject.Bucket := bucketName; GetObject.Key := filePath |} in
       (send _ command (remote w) = (Rejected cause, remote w')
        \/ exists response,
             send _ command (remote w) = (Resolved response, remote w')
             /\ ((cause = Error "Unexpected response body type"
                  /\ forall stream, GetObject.Body response <> Some (NodeStream stream))
                 \/ exists stream,
                      GetObject.Body response = Some (NodeStream stream)
                      /\ failure stream = Some cause)).
Proof.
  intros Hrejected.
  assert (Hbinary : getFromS3AsBinary send bucketName filePath w = (Rejected e, w')).
  { destruct Hrejected as [Htext|Hbinary]; [|exact Hbinary].
    rewrite getFromS3_unfold in Htext. rewrite getFromS3AsBinary_unfold.
    destruct (send _ _ (remote w)) as [[response|cause] r];
      [|now injection Htext as <- <-].
    destruct (drained response); [discriminate|now injection Htext as <- <-]. }
  clear Hrejected. rewrite getFromS3AsBinary_unfold in Hbinary. cbv zeta.
  destruct (send _ _ (remote w)) as [[response|cause] r].
  - destruct (drained response) as [bytes|cause] eqn:Hdrained; [discriminate|].
    injection Hbinary as <- <-. exists cause. repeat split. right.
    exists response. split; [reflexivity|].
    unfold drained in Hdrained.
    destruct (GetObject.Body response) as [[stream|]|] eqn:Hbody.
    + right. exists stream. split; [reflexivity|].
      destruct (failure stream); [now injection Hdrained as ->|discriminate].
    + left. injection Hdrained as <-. split; [reflexivity|discriminate].
    + left. injection Hdrained as <-. split; [reflexivity|discriminate].
  - injection Hbinary as <- <-. exists cause. repeat split. now left.
Qed.

Lemma download_rejection_is_wrapped_witness :
  exists cause,
    DownloadError MemoryStore.NoSuchKey
    = {| name := "Error";
         message := "Error retrieving from S3: " ++ message cause |}
    /\ console (Build_World (∅ : Objects) []) = console (Build_World (∅ : Objects) [])
    /\ let command :=
         GetObjectCommand {| GetObject.Bucket := "bucket"; GetObject.Key := "absent" |} in
       (MemoryStore.send _ command ∅ = (Rejected cause, ∅)
        \/ exists response,
             MemoryStore.send _ command ∅ = (Resolved response, ∅)
             /\ ((cause = Error "Unexpected response body type"
                  /\ forall stream, GetObject.Body response <> Some (NodeStream stream))
                 \/ exists stream,
                      GetObject.Body response = Some (NodeStream stream)
                      /\ failure stream = Some cause)).
Proof.
  apply (download_rejection_is_wrapped MemoryStore.send no_replacement "bucket" "absent"
           (Build_World ∅ []) (Build_World ∅ []) (DownloadError MemoryStore.NoSuchKey)).
  left. reflexivity.
Defined.

(** X2. A stream that is destroyed with an error makes both downloads fail
    with that error wrapped, however many chunks it had yielded: no
    partial content is returned. *)
Theorem download_of_broken_stream
    {Remote : Type} (send : forall O : Type, Command O -> Remote -> Outcome O * Remote)
    (decode_lossy : list byte -> Text) (bucketName filePath : string)
    (w : World Remote) (r : Remote) (chunks : list Uint8Array) (e : JsError) :
  send _ (GetObjectCommand
            {| GetObject.Bucket := bucketName; GetObject.Key := filePath |})
    (remote w)
  = (Resolved
       {| GetObject.Body :=
            Some (NodeStream {| yields := chunks; failure := Some e |}) |}, r) ->
  getFromS3AsBinary send bucketName filePath w
    = (Rejected (DownloadError e), Build_World r (console w))
  /\ getFromS3 send decode_lossy bucketName filePath w
    = (Rejected (DownloadError e), Build_World r (console w)).
Proof.
  intros Hsend. now rewrite getFromS3_unfold, getFromS3AsBinary_unfold, Hsend.
Qed.

Lemma download_of_broken_stream_witness :
  getFromS3AsBinary BrokenStream.send "bucket" "key" (Build_World tt [])
    = (Rejected (DownloadError BrokenStream.Aborted), Build_World tt [])
  /\ getFromS3 BrokenStream.send no_replacement "bucket" "key" (Build_World tt [])
    = (Rejected (DownloadError BrokenStream.Aborted), Build_World tt []).
Proof.
  apply (download_of_broken_stream BrokenStream.send no_replacement "bucket" "key"
           (Build_World tt []) tt [[Byte.x25; Byte.x50]] BrokenStream.Aborted).
  reflexivity.
Defined.

(** X3. How the body is cut into chunks does not matter: two complete
    streams whose chunks concatenate to the same bytes give the same
    binary download and the same text, since the text is decoded once,
    from the whole buffer, so that a character split between two chunks
    is read correctly. *)
Theorem download_ignores_chunking
    {Remote1 Remote2 : Type}
    (send1 : forall O : Type, Command O -> Remote1 -> Outcome O * Remote1)
    (send2 : forall O : Type, Command O -> Remote2 -> Outcome O * Remote2)
    (decode_lossy : list byte -> Text) (bucketName filePath : string)
    (w1 : World Remote1) (w2 : World Remote2) (r1 : Remote1) (r2 : Remote2)
    (chunks1 chunks2 : list Uint8Array) :
  send1 _ (GetObjectCommand
             {| GetObject.Bucket := bucketName; GetObject.Key := filePath |})
    (remote w1)
  = (Resolved
       {| GetObject.Body :=
            Some (NodeStream {| yields := chunks1; failure := None |}) |}, r1) ->
  send2 _ (GetObjectCommand
             {| GetObject.Bucket := bucketName; GetObject.Key := filePath |})
    (remote w2)
  = (Resolved
       {| GetObject.Body :=
            Some (NodeStream {| yields := chunks2; failure := None |}) |}, r2) ->
  List.concat chunks1 = List.concat chunks2 ->
  fst (getFromS3AsBinary send1 bucketName filePath w1) = Resolved (List.concat chunks1)
  /\ fst (getFromS3AsBinary send2 bucketName filePath w2)
     = fst (getFromS3AsBinary send1 bucketName filePath w1)
  /\ fst (getFromS3 send2 decode_lossy bucketName filePath w2)
     = fst (getFromS3 send1 decode_lossy bucketName filePath w1).
Proof.
  intros Hsend1 Hsend2 Hsame.
  rewrite !getFromS3_unfold, !getFromS3AsBinary_unfold, Hsend1, Hsend2.
  unfold drained, Buffer.concat. simpl. now rewrite Hsame.
Qed.

Lemma download_ignores_chunking_witness :
  let whole := [[Byte.x48; Byte.xc3; Byte.xa9]] in
  let split := [[Byte.x48; Byte.xc3]; []; [Byte.xa9]] in
  fst (getFromS3AsBinary (Chunked.send whole) "bucket" "key" (Build_World tt []))
  = Resolved (List.concat whole)
  /\ fst (getFromS3AsBinary (Chunked.send split) "bucket" "key" (Build_World tt []))
     = fst (getFromS3AsBinary (Chunked.send whole) "bucket" "key" (Build_World tt []))
  /\ fst (getFromS3 (Chunked.send split) no_replacement "bucket" "key"
            (Build_World tt []))
     = fst (getFromS3 (Chunked.send whole) no_replacement "bucket" "key"
              (Build_World tt [])).
Proof.
  intros whole split.
  apply (download_ignores_chunking (Chunked.send whole) (Chunked.send split)
           no_replacement "bucket" "key" (Build_World tt []) (Build_World tt [])
           tt tt whole split eq_refl eq_refl).
  reflexivity.
Defined.

(** ** Uploads and downloads together *)

(** X4. An upload touches only its own key: an object stored under another
    bucket or key is downloaded unchanged after it. *)
Theorem upload_leaves_other_objects
    {Remote : Type} (send : forall O : Type, Command O -> Remote -> Outcome O * Remote)
    (objects : Remote -> Objects)
    (bucketName filePath : string) (data : Payload) (mimeType : string)
    (otherBucket otherPath : string) (bytes : list byte)
    (w w1 : World Remote) (output : PutObject.Output) :
  put_commits send objects ->
  get_serves send objects ->
  (otherBucket, otherPath) <> (bucketName, filePath) ->
  objects (remote w) !! (otherBucket, otherPath) = Some bytes ->
  uploadToS3 send bucketName filePath data mimeType w = (Resolved output, w1) ->
  exists w2, getFromS3AsBinary send otherBucket otherPath w1 = (Resolved bytes, w2).
Proof.
  intros Hput Hget Hother Hstored Hup.
  rewrite uploadToS3_unfold in Hup.
  destruct (send _ _ (remote w)) as [[output'|e] r] eqn:Hsend; [|discriminate].
  injection Hup as -> <-.
  assert (Hstill : objects r !! (otherBucket, otherPath) = Some bytes).
  { rewrite (Hput _ _ _ _ Hsend). unfold written. simpl.
    rewrite lookup_insert_ne by congruence. exact Hstored. }
  destruct (served_downloads send objects (fun _ => []) otherBucket otherPath
              (Build_World r (console w)) bytes Hget Hstill) as (w2 & Hbinary & _).
  now exists w2.
Qed.

Lemma upload_leaves_other_objects_witness :
  let w := Build_World (<[("bucket", "old.bin") := [Byte.x01; Byte.x02]]> (∅ : Objects)) [] in
  let w1 := snd (uploadToS3 MemoryStore.send "bucket" "new.bin" (BinaryBody [Byte.x03])
                   "application/octet-stream" w) in
  exists w2,
    getFromS3AsBinary MemoryStore.send "bucket" "old.bin" w1
    = (Resolved [Byte.x01; Byte.x02], w2).
Proof.
  intros w w1.
  apply (upload_leaves_other_objects MemoryStore.send id "bucket" "new.bin"
           (BinaryBody [Byte.x03]) "application/octet-stream" "bucket" "old.bin"
           [Byte.x01; Byte.x02] w w1 {| PutObject.ETag := None |}
           memory_put_commits memory_get_serves).
  - discriminate.
  - reflexivity.
  - reflexivity.
Defined.

(** X5. After an upload that failed against an atomic store, a download of
    the same key returns the object as it was, or the complete new
    payload: never a mixture of the two. *)
Theorem download_after_failed_upload
    {Remote : Type} (send : forall O : Type, Command O -> Remote -> Outcome O * Remote)
    (objects : Remote -> Objects)
    (bucketName filePath : string) (data : Payload) (mimeType : string)
    (previous : list byte) (w w1 : World Remote) (e : JsError) :
  put_is_atomic send objects ->
  get_serves send objects ->
  objects (remote w) !! (bucketName, filePath) = Some previous ->
  uploadToS3 send bucketName filePath data mimeType w = (Rejected e, w1) ->
  exists bytes w2,
    getFromS3AsBinary send bucketName filePath w1 = (Resolved bytes, w2)
    /\ (bytes = previous \/ bytes = body_bytes data).
Proof.
  intros Hatomic Hget Hstored Hup.
  rewrite uploadToS3_unfold in Hup.
  destruct (send _ _ (remote w)) as [[output|cause] r] eqn:Hsend; [discriminate|].
  injection Hup as _ <-.
  assert (Hnow : exists bytes,
             objects r !! (bucketName, filePath) = Some bytes
             /\ (bytes = previous \/ bytes = body_bytes data)).
  { destruct (Hatomic _ _ _ _ Hsend) as [-> | ->].
    - exists previous. split; [exact Hstored|now left].
    - exists (body_bytes data). split; [|now right].
      unfold written. simpl. apply lookup_insert_eq. }
  destruct Hnow as (bytes & Hbytes & Hwhich).
  destruct (served_downloads send objects (fun _ => []) bucketName filePath
              (Build_World r (console w)) bytes Hget Hbytes) as (w2 & Hbinary & _).
  now exists bytes, w2.
Qed.

Lemma lost_response_get_serves : get_serves LostResponse.send id.
Proof.
  intros input r bytes H. simpl. unfold MemoryStore.get. unfold id in H. rewrite H.
  eexists _, _. split; [reflexivity|].
  unfold Buffer.concat. simpl. rewrite app_nil_r. apply firstn_skipn.
Qed.

Lemma download_after_failed_upload_witness :
  let w := Build_World (<[("bucket", "key") := [Byte.x01]]> (∅ : Objects)) [] in
  let data := BinaryBody [Byte.x02; Byte.x03] in
  let w1 := snd (uploadToS3 LostResponse.send "bucket" "key" data "text/plain" w) in
  exists bytes w2,
    getFromS3AsBinary LostResponse.send "bucket" "key" w1 = (Resolved bytes, w2)
    /\ (bytes = [Byte.x01] \/ bytes = body_bytes data).
Proof.
  intros w data w1.
  apply (download_after_failed_upload LostResponse.send id "bucket" "key" data
           "text/plain" [Byte.x01] w w1 (UploadError LostResponse.Timeout)
           lost_response_put_is_atomic lost_response_get_serves).
  - reflexivity.
  - reflexivity.
Defined.

Lemma upload_then_download_text_witness :
  let text := [72; 233; 8364; 128512] in
  let w := Build_World (∅ : Objects) [] in
  let w1 := snd (uploadToS3 MemoryStore.send "bucket" "greeting.txt" (TextBody text)
                   "text/plain" w) in
  exists w3,
    getFromS3 MemoryStore.send no_replacement "bucket" "greeting.txt" w1
    = (Resolved text, w3).
Proof.
  intros text w w1.
  apply (upload_then_download_text MemoryStore.send id no_replacement "bucket"
           "greeting.txt" text "text/plain" w w1 w1 {| PutObject.ETag := None |}
           memory_put_commits memory_get_serves).
  - repeat constructor.
  - reflexivity.
  - reflexivity.
Defined.

(** ** The most recent file *)

(** X7. A qualifying key whose date is strictly later than that of every
    other qualifying key is the one returned, wherever it stands in the
    listing. *)
Theorem strictly_latest_is_returned
    {Remote : Type} (send : forall O : Type, Command O -> Remote -> Outcome O * Remote)
    (parse_other : string -> Number) (bucketName prefix : string)
    (w : World Remote) (response : ListObjectsV2.Output) (r : Remote)
    (keys : list string) (key : string) :
  send _ (ListObjectsV2Command
            {| ListObjectsV2.Bucket := bucketName; ListObjectsV2.Prefix := prefix |})
    (remote w) = (Resolved response, r) ->
  ListObjectsV2.Contents response = Some (List.map listed keys) ->
  In key (retained keys) ->
  dated parse_other key ->
  (forall k, In k (retained keys) -> k <> key -> earlier parse_other k key) ->
  getMostRecentFile send parse_other bucketName prefix w
  = (Resolved (Some key), Build_World r (console w)).
Proof.
  intros Hsend Hcontents Hin Hkey Hothers.
  apply (getMostRecentFile_listed send parse_other _ _ w response r keys key
           Hsend Hcontents).
  now apply unique_latest_head.
Qed.

Lemma strictly_latest_is_returned_witness :
  let keys := ["a_2024-01-01.pdf"; "notes.txt"; "b_2024-06-15.pdf"; "c_2023-12-31.pdf"] in
  getMostRecentFile (Listing.send keys) no_other_dates "bucket" ""
    (Build_World tt [])
  = (Resolved (Some "b_2024-06-15.pdf"), Build_World tt []).
Proof.
  intros keys.
  apply (strictly_latest_is_returned (Listing.send keys) no_other_dates "bucket" ""
           (Build_World tt []) _ tt keys
           "b_2024-06-15.pdf" eq_refl eq_refl).
  - simpl. right. now left.
  - now exists 1718409600000.
  - intros k [<-|[<-|[<-|[]]]] Hne.
    + exists 1704067200000, 1718409600000. repeat split.
    + now destruct Hne.
    + exists 1703980800000, 1718409600000. repeat split.
Defined.

Lemma prefix_trans (a b c : string) :
  String.prefix a b = true -> String.prefix b c = true -> String.prefix a c = true.
Proof.
  revert b c. induction a as [|x a IH]; intros [|y b] [|z c]; simpl; trivial;
    try discriminate.
  destruct (ascii_dec x y) as [->|]; [|discriminate].
  destruct (ascii_dec y z) as [->|]; [|discriminate].
  apply IH.
Qed.

Lemma includes_of_prefix (searchString p s : string) :
  JsString.includes searchString p = true ->
  String.prefix p s = true ->
  JsString.includes searchString s = true.
Proof.
  revert s. induction p as [|c p IH]; intros s Hinc Hpre.
  - destruct searchString; [|discriminate]. now destruct s.
  - destruct s as [|c' s]; [discriminate|].
    simpl in Hpre. destruct (ascii_dec c c') as [<-|]; [|discriminate].
    change (String.prefix searchString (String c p)
            || JsString.includes searchString p = true) in Hinc.
    change (String.prefix searchString (String c s)
            || JsString.includes searchString s = true).
    apply orb_true_iff in Hinc as [Hhere|Hlater]; apply orb_true_iff.
    + left. apply (prefix_trans searchString (String c p) (String c s) Hhere).
      simpl. destruct (ascii_dec c c); [exact Hpre|congruence].
    + right. exact (IH s Hlater Hpre).
Qed.

(** X10. The underscore may stand anywhere in the key.  When the prefix asked
    for contains one and the store lists only keys that start with the
    prefix, the filter removes nothing: every listed key is ranked, and a
    non-empty listing always yields a key. *)
Theorem underscore_in_prefix_keeps_all
    {Remote : Type} (send : forall O : Type, Command O -> Remote -> Outcome O * Remote)
    (parse_other : string -> Number) (bucketName prefix : string)
    (w : World Remote) (response : ListObjectsV2.Output) (r : Remote)
    (keys : list string) :
  send _ (ListObjectsV2Command
            {| ListObjectsV2.Bucket := bucketName; ListObjectsV2.Prefix := prefix |})
    (remote w) = (Resolved response, r) ->
  ListObjectsV2.Contents response = Some (List.map listed keys) ->
  JsString.includes "_" prefix = true ->
  List.Forall (fun key => String.prefix prefix key = true) keys ->
  retained keys = keys
  /\ (keys <> [] ->
      exists key,
        fst (getMostRecentFile send parse_other bucketName prefix w)
        = Resolved (Some key)).
Proof.
  intros Hsend Hcontents Hprefix Hall.
  assert (Hkept : retained keys = keys).
  { unfold retained. clear Hsend Hcontents.
    induction Hall as [|key rest Hkey _ IH]; simpl; [reflexivity|].
    rewrite (includes_of_prefix "_" prefix _ Hprefix Hkey). now rewrite IH. }
  split; [exact Hkept|].
  intros Hsome.
  destruct (head_sort_is_Some (compareFn parse_other) (retained keys))
    as [key Hkey].
  { now rewrite Hkept. }
  exists key.
  now rewrite (getMostRecentFile_listed send parse_other _ _ w response r keys key
                 Hsend Hcontents Hkey).
Qed.

Lemma underscore_in_prefix_keeps_all_witness :
  let keys := ["daily_reports/summary.pdf"; "daily_reports/2024-06-15.pdf"] in
  retained keys = keys
  /\ (keys <> [] ->
      exists key,
        fst (getMostRecentFile (Listing.send keys) no_other_dates "bucket"
               "daily_reports/" (Build_World tt []))
        = Resolved (Some key)).
Proof.
  intros keys.
  apply (underscore_in_prefix_keeps_all (Listing.send keys) no_other_dates "bucket"
           "daily_reports/" (Build_World tt []) _ tt
           keys eq_refl eq_refl).
  - reflexivity.
  - repeat constructor.
Defined.

(** X11. After a listing that resolved, there are three cases.  With no
    entry (Contents undefined or empty) the call resolves with
    [undefined] and logs "No files found.".  With entries that all carry
    their keys it resolves and logs nothing, also when no key has an
    underscore and [undefined] is returned.  With an entry that has no
    key it is rejected with a [TypeError], and logs nothing. *)
Theorem no_files_found_logged
    {Remote : Type} (send : forall O : Type, Command O -> Remote -> Outcome O * Remote)
    (parse_other : string -> Number) (bucketName prefix : string)
    (w : World Remote) (response : ListObjectsV2.Output) (r : Remote) :
  send _ (ListObjectsV2Command
            {| ListObjectsV2.Bucket := bucketName; ListObjectsV2.Prefix := prefix |})
    (remote w) = (Resolved response, r) ->
  let run := getMostRecentFile send parse_other bucketName prefix w in
  (ListObjectsV2.Contents response = None
   \/ ListObjectsV2.Contents response = Some [] ->
   run = (Resolved None, Build_World r (console w ++ ["No files found."])))
  /\ (forall keys,
        ListObjectsV2.Contents response = Some (List.map listed keys) ->
        keys <> [] ->
        exists result,
          run = (Resolved result, Build_World r (console w))
          /\ (List.Forall (fun key => JsString.includes "_" key = false) keys ->
              result = None))
  /\ (forall contents,
        ListObjectsV2.Contents response = Some contents ->
        In None (List.map ListObjectsV2.Key contents) ->
        run = (Rejected (TypeError_reading "includes"), Build_World r (console w)))
  /\ (ListObjectsV2.Contents response = None
      \/ (exists keys, ListObjectsV2.Contents response = Some (List.map listed keys))
      \/ (exists contents,
            ListObjectsV2.Contents response = Some contents
            /\ In None (List.map ListObjectsV2.Key contents))).
Proof.
  intros Hsend run. unfold run. rewrite getMostRecentFile_unfold, Hsend.
  split; [|split; [|split]].
  - unfold most_recent, logged. now intros [-> | ->].
  - intros keys Hcontents Hkeys.
    rewrite (most_recent_listed parse_other response keys Hcontents).
    rewrite (logged_listed response keys Hcontents Hkeys), app_nil_r.
    eexists. split; [reflexivity|].
    intros Hall. now rewrite (retained_nil_of_no_underscore keys Hall).
  - intros contents Hcontents Hin. unfold most_recent, logged.
    rewrite Hcontents, (filter_includes_keyless _ Hin).
    destruct contents; [destruct Hin|]. now rewrite app_nil_r.
  - destruct (ListObjectsV2.Contents response) as [contents|]; [|now left].
    right.
    destruct (filter_includes (List.map ListObjectsV2.Key contents))
      as [files|e] eqn:Hfilter.
    + left. destruct (filter_includes_resolved contents files Hfilter)
        as (keys & -> & _).
      now exists keys.
    + right. exists contents. split; [reflexivity|].
      now apply (filter_includes_rejected _ e).
Qed.

Lemma no_files_found_logged_witness :
  let contents := [listed "a_2024-06-15.pdf"; {| ListObjectsV2.Key := None |}] in
  let run :=
    getMostRecentFile (Entries.send contents) no_other_dates "bucket" ""
      (Build_World tt ["earlier line"]) in
  run = (Rejected (TypeError_reading "includes"), Build_World tt ["earlier line"]).
Proof.
  intros contents run.
  destruct (no_files_found_logged (Entries.send contents) no_other_dates "bucket" ""
              (Build_World tt ["earlier line"]) _ tt eq_refl)
    as (_ & _ & Hkeyless & _).
  apply (Hkeyless contents eq_refl). simpl. right. now left.
Defined.

(** ** Upload, then look for the most recent file *)

Lemma listed_keys_listed (response : ListObjectsV2.Output) (keys : list string) :
  ListObjectsV2.Contents response = Some (List.map listed keys) ->
  listed_keys response = keys.
Proof.
  intros E. unfold listed_keys. rewrite E.
  clear E. induction keys as [|key rest IH]; simpl; [reflexivity|].
  now rewrite IH.
Qed.

Lemma page_of_keys (keys : list string) :
  let response :=
    {| ListObjectsV2.Contents :=
         match keys with [] => None | _ => Some (List.map listed keys) end |} in
  all_keyed response /\ listed_keys response = keys.
Proof.
  destruct keys as [|key rest]; simpl.
  - split; [now left|reflexivity].
  - split; [right; now exists (key :: rest)|].
    now apply (listed_keys_listed _ (key :: rest)).
Qed.

Lemma memory_list_sound : list_sound MemoryStore.send id.
Proof.
  intros input r response r' H. simpl in H.
  unfold MemoryStore.list_objects in H. injection H as <- _.
  set (keys := List.filter _ _).
  destruct (page_of_keys keys) as [Hkeyed Hkeys].
  split; [exact Hkeyed|].
  intros key Hin. rewrite Hkeys in Hin. subst keys.
  apply filter_In in Hin as [Hin Hprefix]. split; [|exact Hprefix].
  apply in_map_iff in Hin as ([[b k] bytes] & Hk & Hin). simpl in Hk. subst k.
  apply filter_In in Hin as [Hin Hb]. simpl in Hb. apply String.eqb_eq in Hb. subst b.
  apply list_elem_of_In, elem_of_map_to_list in Hin.
  unfold id. rewrite Hin. now exists bytes.
Qed.

(** X12. After a successful upload of a dated key, a listing that names it
    makes [getMostRecentFile] return it, provided every other qualifying
    key that was stored under the prefix carries a strictly earlier
    date.  (A listing is one page; a key the page leaves out cannot be
    returned.) *)
Theorem uploaded_latest_is_found
    {Remote : Type} (send : forall O : Type, Command O -> Remote -> Outcome O * Remote)
    (objects : Remote -> Objects) (parse_other : string -> Number)
    (bucketName filePath prefix : string) (data : Payload) (mimeType : string)
    (w w1 : World Remote) (output : PutObject.Output)
    (response : ListObjectsV2.Output) (r2 : Remote) :
  put_commits send objects ->
  list_sound send objects ->
  uploadToS3 send bucketName filePath data mimeType w = (Resolved output, w1) ->
  send _ (ListObjectsV2Command
            {| ListObjectsV2.Bucket := bucketName; ListObjectsV2.Prefix := prefix |})
    (remote w1) = (Resolved response, r2) ->
  In filePath (listed_keys response) ->
  JsString.includes "_" filePath = true ->
  dated parse_other filePath ->
  (forall k,
     k <> filePath ->
     is_Some (objects (remote w) !! (bucketName, k)) ->
     String.prefix prefix k = true ->
     JsString.includes "_" k = true ->
     earlier parse_other k filePath) ->
  getMostRecentFile send parse_other bucketName prefix w1
  = (Resolved (Some filePath), Build_World r2 (console w1)).
Proof.
  intros Hput Hsound Hup Hlist Hlisted Hunderscore Hdated Hothers.
  rewrite uploadToS3_unfold in Hup.
  destruct (send _ _ (remote w)) as [[output'|e] r] eqn:Hsend; [|discriminate].
  injection Hup as -> <-. simpl in *.
  apply Hput in Hsend.
  destruct (Hsound _ _ _ _ Hlist) as [Hkeyed Hstored_all].
  destruct Hkeyed as [Hcontents|[keys Hcontents]].
  { unfold listed_keys in Hlisted. rewrite Hcontents in Hlisted. destruct Hlisted. }
  rewrite (listed_keys_listed response keys Hcontents) in Hlisted, Hstored_all.
  apply (getMostRecentFile_listed send parse_other _ _
           (Build_World r (console w)) response r2 keys filePath Hlist Hcontents).
  apply unique_latest_head; trivial.
  - now apply retained_In.
  - intros k Hk Hne. apply retained_In in Hk as [Hk Hku].
    destruct (Hstored_all k Hk) as [Hstored Hprefix].
    simpl in Hstored, Hprefix. rewrite Hsend in Hstored. unfold written in Hstored.
    simpl in Hstored. rewrite lookup_insert_ne in Hstored by congruence.
    now apply Hothers.
Qed.

Lemma uploaded_latest_is_found_witness :
  let w :=
    Build_World
      (<[("bucket", "report_2024-01-01.pdf") := [Byte.x01]]>
         (<[("bucket", "report.pdf") := [Byte.x02]]> (∅ : Objects))) [] in
  let w1 := snd (uploadToS3 MemoryStore.send "bucket" "report_2024-06-15.pdf"
                   (BinaryBody [Byte.x03]) "application/pdf" w) in
  getMostRecentFile MemoryStore.send no_other_dates "bucket" "report" w1
  = (Resolved (Some "report_2024-06-15.pdf"), w1).
Proof.
  intros w w1.
  apply (uploaded_latest_is_found MemoryStore.send id no_other_dates "bucket"
           "report_2024-06-15.pdf" "report" (BinaryBody [Byte.x03]) "application/pdf"
           w w1 {| PutObject.ETag := None |} _ (remote w1)
           memory_put_commits memory_list_sound eq_refl eq_refl).
  - vm_compute. tauto.
  - reflexivity.
  - now exists 1718409600000.
  - intros k Hne [bytes Hstored] _ Hunderscore. unfold id in Hstored. simpl in Hstored.
    destruct (decide (k = "report_2024-01-01.pdf")) as [->|Hne1].
    + exists 1704067200000, 1718409600000. repeat split.
    + rewrite lookup_insert_ne in Hstored by congruence.
      destruct (decide (k = "report.pdf")) as [->|Hne2]; [discriminate|].
      rewrite lookup_insert_ne in Hstored by congruence.
      now rewrite lookup_empty in Hstored.
Defined.

(** ** Calendar order *)

Lemma DaysInYear_range y : JsDate.DaysInYear y = 365 \/ JsDate.DaysInYear y = 366.
Proof. unfold JsDate.DaysInYear. repeat destruct (negb _); auto. Qed.

Lemma DayFromYear_succ y : JsDate.DayFromYear (y + 1) = JsDate.DayFromYear y + JsDate.DaysInYear y.
Proof.
  unfold JsDate.DayFromYear, JsDate.DaysInYear.
  repeat match goal with |- context [?a =? ?b] => destruct (Z.eqb_spec a b) end;
    simpl negb; cbv iota; Z.div_mod_to_equations; lia.
Qed.

Lemma DayFromYear_mono y y' : y <= y' -> JsDate.DayFromYear y <= JsDate.DayFromYear y'.
Proof.
  intros H. unfold JsDate.DayFromYear. Z.div_mod_to_equations. lia.
Qed.

Lemma month_cases m : 1 <= m <= 12 ->
  m = 1 \/ m = 2 \/ m = 3 \/ m = 4 \/ m = 5 \/ m = 6 \/ m = 7 \/ m = 8 \/ m = 9 \/ m = 10 \/ m = 11 \/ m = 12.
Proof. lia. Qed.

Lemma InLeapYear_range y : JsDate.InLeapYear y = 0 \/ JsDate.InLeapYear y = 1.
Proof. unfold JsDate.InLeapYear. destruct (_ =? _); auto. Qed.

Lemma InLeapYear_DaysInYear y : JsDate.DaysInYear y = 365 + JsDate.InLeapYear y.
Proof.
  unfold JsDate.InLeapYear. destruct (DaysInYear_range y) as [E|E]; rewrite E; reflexivity.
Qed.


Lemma DaysInMonth_table y :
  JsDate.DaysInMonth y 1 = 31 /\ JsDate.DaysInMonth y 2 = 28 + JsDate.InLeapYear y
  /\ JsDate.DaysInMonth y 3 = 31 /\ JsDate.DaysInMonth y 4 = 30 /\ JsDate.DaysInMonth y 5 = 31
  /\ JsDate.DaysInMonth y 6 = 30 /\ JsDate.DaysInMonth y 7 = 31 /\ JsDate.DaysInMonth y 8 = 31
  /\ JsDate.DaysInMonth y 9 = 30 /\ JsDate.DaysInMonth y 10 = 31 /\ JsDate.DaysInMonth y 11 = 30
  /\ JsDate.DaysInMonth y 12 = 31.
Proof. repeat split; reflexivity. Qed.

Lemma days_before_month_table y :
  let L := JsDate.InLeapYear y in
  JsDate.days_before_month y (Z.to_nat 1) = 0
  /\ JsDate.days_before_month y (Z.to_nat 2) = 31
  /\ JsDate.days_before_month y (Z.to_nat 3) = 59 + L
  /\ JsDate.days_before_month y (Z.to_nat 4) = 90 + L
  /\ JsDate.days_before_month y (Z.to_nat 5) = 120 + L
  /\ JsDate.days_before_month y (Z.to_nat 6) = 151 + L
  /\ JsDate.days_before_month y (Z.to_nat 7) = 181 + L
  /\ JsDate.days_before_month y (Z.to_nat 8) = 212 + L
  /\ JsDate.days_before_month y (Z.to_nat 9) = 243 + L
  /\ JsDate.days_before_month y (Z.to_nat 10) = 273 + L
  /\ JsDate.days_before_month y (Z.to_nat 11) = 304 + L
  /\ JsDate.days_before_month y (Z.to_nat 12) = 334 + L.
Proof.
  intros L.
  assert (E : forall n, JsDate.days_before_month y (S (S n))
                        = JsDate.days_before_month y (S n) + JsDate.DaysInMonth y (Z.of_nat (S n)))
    by reflexivity.
  destruct (DaysInMonth_table y)
    as (D1 & D2 & D3 & D4 & D5 & D6 & D7 & D8 & D9 & D10 & D11 & D12).
  fold L in D2.
  change (Z.to_nat 1) with 1%nat. change (Z.to_nat 2) with 2%nat.
  change (Z.to_nat 3) with 3%nat. change (Z.to_nat 4) with 4%nat.
  change (Z.to_nat 5) with 5%nat. change (Z.to_nat 6) with 6%nat.
  change (Z.to_nat 7) with 7%nat. change (Z.to_nat 8) with 8%nat.
  change (Z.to_nat 9) with 9%nat. change (Z.to_nat 10) with 10%nat.
  change (Z.to_nat 11) with 11%nat. change (Z.to_nat 12) with 12%nat.
  rewrite !E. change (JsDate.days_before_month y 1) with 0.
  change (Z.of_nat 1) with 1. change (Z.of_nat 2) with 2. change (Z.of_nat 3) with 3.
  change (Z.of_nat 4) with 4. change (Z.of_nat 5) with 5. change (Z.of_nat 6) with 6.
  change (Z.of_nat 7) with 7. change (Z.of_nat 8) with 8. change (Z.of_nat 9) with 9.
  change (Z.of_nat 10) with 10. change (Z.of_nat 11) with 11.
  rewrite D1, D2, D3, D4, D5, D6, D7, D8, D9, D10, D11.
  repeat split; lia.
Qed.

Lemma day_in_year_bound y m d :
  1 <= m <= 12 -> 1 <= d <= JsDate.DaysInMonth y m ->
  0 <= JsDate.days_before_month y (Z.to_nat m) + (d - 1) < JsDate.DaysInYear y.
Proof.
  intros Hm Hd. rewrite InLeapYear_DaysInYear.
  pose proof (InLeapYear_range y) as Hleap.
  destruct (days_before_month_table y)
    as (B1 & B2 & B3 & B4 & B5 & B6 & B7 & B8 & B9 & B10 & B11 & B12).
  destruct (DaysInMonth_table y)
    as (D1 & D2 & D3 & D4 & D5 & D6 & D7 & D8 & D9 & D10 & D11 & D12).
  pose proof (month_cases m Hm) as Cm; repeat (destruct Cm as [Cm|Cm]); subst m; lia.
Qed.

Lemma same_year_lt y m d m' d' :
  1 <= m <= 12 -> 1 <= m' <= 12 ->
  1 <= d <= JsDate.DaysInMonth y m -> 1 <= d' <= JsDate.DaysInMonth y m' ->
  m < m' ->
  JsDate.days_before_month y (Z.to_nat m) + (d - 1) < JsDate.days_before_month y (Z.to_nat m') + (d' - 1).
Proof.
  intros Hm Hm' Hd Hd' Hlt.
  pose proof (InLeapYear_range y) as Hleap.
  destruct (days_before_month_table y)
    as (B1 & B2 & B3 & B4 & B5 & B6 & B7 & B8 & B9 & B10 & B11 & B12).
  destruct (DaysInMonth_table y)
    as (D1 & D2 & D3 & D4 & D5 & D6 & D7 & D8 & D9 & D10 & D11 & D12).
  pose proof (month_cases m Hm) as Cm; repeat (destruct Cm as [Cm|Cm]); subst m;
  pose proof (month_cases m' Hm') as Cm'; repeat (destruct Cm' as [Cm'|Cm']); subst m';
    lia.
Qed.

Lemma MakeDay_lt y m d y' m' d' :
  1 <= m <= 12 -> 1 <= m' <= 12 ->
  1 <= d <= JsDate.DaysInMonth y m -> 1 <= d' <= JsDate.DaysInMonth y' m' ->
  calendar_lt (y, m, d) (y', m', d') ->
  JsDate.MakeDay y m d < JsDate.MakeDay y' m' d'.
Proof.
  intros Hm Hm' Hd Hd' [Hy|[<- [Hlt|[<- Hlt]]]]; unfold JsDate.MakeDay.
  - pose proof (day_in_year_bound y m d Hm Hd).
    pose proof (day_in_year_bound y' m' d' Hm' Hd').
    pose proof (DayFromYear_succ y).
    pose proof (DayFromYear_mono (y + 1) y' ltac:(lia)). lia.
  - pose proof (same_year_lt y m d m' d' Hm Hm' Hd Hd' Hlt). lia.
  - lia.
Qed.

Lemma parse_iso_date_calendar (s : string) :
  JsDate.parse_iso_date s =
    match calendar_date s with
    | Some (y, m, d) => Some (JsDate.MakeDate (JsDate.MakeDay y m d) 0)
    | None => None
    end.
Proof.
  unfold JsDate.parse_iso_date, calendar_date.
  destruct (list_ascii_of_string s) as [|y1 l]; trivial.
  do 9 (destruct l as [|? l]; trivial).
  destruct l; trivial.
  destruct (_ && _); trivial.
  destruct (JsDate.digits4 _ _ _ _) as [y|]; trivial.
  destruct (JsDate.digits2 _ _) as [m|]; trivial.
  destruct (JsDate.digits2 _ _) as [d|]; trivial.
  now destruct (_ && _).
Qed.

Lemma calendar_date_valid (s : string) (y m d : Z) :
  calendar_date s = Some (y, m, d) ->
  1 <= m <= 12 /\ 1 <= d <= JsDate.DaysInMonth y m.
Proof.
  unfold calendar_date.
  destruct (list_ascii_of_string s) as [|y1 l]; try discriminate.
  do 9 (destruct l as [|? l]; try discriminate).
  destruct l; try discriminate.
  destruct (_ && _); try discriminate.
  destruct (JsDate.digits4 _ _ _ _) as [y'|]; try discriminate.
  destruct (JsDate.digits2 _ _) as [m'|]; try discriminate.
  destruct (JsDate.digits2 _ _) as [d'|]; try discriminate.
  destruct (_ && _) eqn:Hvalid; try discriminate.
  intros E. injection E as -> -> ->.
  apply andb_true_iff in Hvalid as [Hvalid Hd2].
  apply andb_true_iff in Hvalid as [Hvalid Hd1].
  apply andb_true_iff in Hvalid as [Hm1 Hm2].
  lia.
Qed.

(** The time value of a key whose token is a calendar date. *)
Lemma sortDate_calendar (parse_other : string -> Number) (key : string) (y m d : Z) :
  calendar_date (JsString.slice (-14) (-4) key) = Some (y, m, d) ->
  sortDate parse_other key = Some (JsDate.MakeDay y m d * JsDate.msPerDay).
Proof.
  intros E. unfold sortDate, JsDate.getTime.
  rewrite parse_iso_date_calendar, E. unfold JsDate.MakeDate. f_equal. lia.
Qed.

Lemma earlier_of_calendar_lt (parse_other : string -> Number) (a b : string)
    (da db : Z * Z * Z) :
  calendar_date (JsString.slice (-14) (-4) a) = Some da ->
  calendar_date (JsString.slice (-14) (-4) b) = Some db ->
  calendar_lt da db ->
  earlier parse_other a b.
Proof.
  destruct da as [[ya ma] dda], db as [[yb mb] ddb]. intros Ea Eb Hlt.
  destruct (calendar_date_valid _ _ _ _ Ea) as [Hma Hda].
  destruct (calendar_date_valid _ _ _ _ Eb) as [Hmb Hdb].
  pose proof (MakeDay_lt ya ma dda yb mb ddb Hma Hmb Hda Hdb Hlt) as Hdays.
  exists (JsDate.MakeDay ya ma dda * JsDate.msPerDay),
         (JsDate.MakeDay yb mb ddb * JsDate.msPerDay).
  split; [now apply sortDate_calendar|]. split; [now apply sortDate_calendar|].
  unfold JsDate.msPerDay. lia.
Qed.

(** X9. Between two keys whose tokens are calendar dates, the comparator puts
    first the one whose date is later in the calendar (by year, then
    month, then day), and ties on equal dates. *)
Theorem comparator_follows_calendar
    (parse_other : string -> Number) (a b : string) (da db : Z * Z * Z) :
  calendar_date (JsString.slice (-14) (-4) a) = Some da ->
  calendar_date (JsString.slice (-14) (-4) b) = Some db ->
  (calendar_lt db da -> JsArray.SortCompare (compareFn parse_other) a b < 0)
  /\ (da = db -> JsArray.SortCompare (compareFn parse_other) a b = 0)
  /\ (calendar_lt da db -> 0 < JsArray.SortCompare (compareFn parse_other) a b).
Proof.
  intros Ea Eb. split; [|split].
  - intros Hlt.
    destruct (earlier_of_calendar_lt parse_other b a db da Eb Ea Hlt)
      as (tb & ta & Hb & Ha & Hlt').
    rewrite (SortCompare_dated parse_other a b ta tb Ha Hb). lia.
  - intros <-. destruct da as [[y m] d].
    pose proof (sortDate_calendar parse_other a y m d Ea) as Ha.
    pose proof (sortDate_calendar parse_other b y m d Eb) as Hb.
    rewrite (SortCompare_dated parse_other a b _ _ Ha Hb). lia.
  - intros Hlt.
    destruct (earlier_of_calendar_lt parse_other a b da db Ea Eb Hlt)
      as (ta & tb & Ha & Hb & Hlt').
    rewrite (SortCompare_dated parse_other a b ta tb Ha Hb). lia.
Qed.

Lemma comparator_follows_calendar_witness :
  let a := "reports/a_2024-03-01.pdf" in
  let b := "reports/b_2024-02-29.pdf" in
  (calendar_lt (2024, 2, 29) (2024, 3, 1) ->
   JsArray.SortCompare (compareFn no_other_dates) a b < 0)
  /\ ((2024, 3, 1) = (2024, 2, 29) ->
      JsArray.SortCompare (compareFn no_other_dates) a b = 0)
  /\ (calendar_lt (2024, 3, 1) (2024, 2, 29) ->
      0 < JsArray.SortCompare (compareFn no_other_dates) a b).
Proof.
  intros a b.
  apply (comparator_follows_calendar no_other_dates a b (2024, 3, 1) (2024, 2, 29));
    reflexivity.
Defined.

(** X8. The key whose token names the latest calendar day is the one
    returned, wherever it is listed, when every other qualifying key
    names a strictly earlier day. *)
Theorem latest_calendar_date_is_returned
    {Remote : Type} (send : forall O : Type, Command O -> Remote -> Outcome O * Remote)
    (parse_other : string -> Number) (bucketName prefix : string)
    (w : World Remote) (response : ListObjectsV2.Output) (r : Remote)
    (keys : list string) (key : string) (day : Z * Z * Z) :
  send _ (ListObjectsV2Command
            {| ListObjectsV2.Bucket := bucketName; ListObjectsV2.Prefix := prefix |})
    (remote w) = (Resolved response, r) ->
  ListObjectsV2.Contents response = Some (List.map listed keys) ->
  In key (retained keys) ->
  calendar_date (JsString.slice (-14) (-4) key) = Some day ->
  (forall k, In k (retained keys) -> k <> key ->
     exists other,
       calendar_date (JsString.slice (-14) (-4) k) = Some other
       /\ calendar_lt other day) ->
  getMostRecentFile send parse_other bucketName prefix w
  = (Resolved (Some key), Build_World r (console w)).
Proof.
  intros Hsend Hcontents Hin Hday Hothers.
  assert (Hhead : List.head (JsArray.sort (compareFn parse_other) (retained keys))
                  = Some key).
  { apply unique_latest_head; trivial.
    - destruct day as [[y m] d].
      eexists. now apply (sortDate_calendar parse_other key y m d).
    - intros k Hk Hne. destruct (Hothers k Hk Hne) as (other & Hother & Hlt).
      now apply (earlier_of_calendar_lt parse_other k key other day). }
  exact (getMostRecentFile_listed send parse_other _ _ w response r keys key
           Hsend Hcontents Hhead).
Qed.

Lemma latest_calendar_date_is_returned_witness :
  let keys := ["x_2023-12-31.pdf"; "y_2024-02-29.pdf"; "z_2024-02-28.pdf"] in
  getMostRecentFile (Listing.send keys) no_other_dates "bucket" ""
    (Build_World tt [])
  = (Resolved (Some "y_2024-02-29.pdf"), Build_World tt []).
Proof.
  intros keys.
  apply (latest_calendar_date_is_returned (Listing.send keys) no_other_dates "bucket" ""
           (Build_World tt []) _ tt keys
           "y_2024-02-29.pdf" (2024, 2, 29) eq_refl eq_refl).
  - simpl. right. now left.
  - reflexivity.
  - intros k [<-|[<-|[<-|[]]]] Hne.
    + exists (2023, 12, 31). split; [reflexivity|]. simpl. lia.
    + now destruct Hne.
    + exists (2024, 2, 28). split; [reflexivity|]. simpl. lia.
Defined.

(** ** Keys outside the naming convention *)

Lemma parse_iso_date_last_digit (s : string) (tv : Z) :
  JsDate.parse_iso_date s = Some tv ->
  exists c n, String.get 9 s = Some c /\ JsDate.digit c = Some n.
Proof.
  unfold JsDate.parse_iso_date.
  do 10 (destruct s as [|? s]; [discriminate|]).
  destruct s; [|discriminate]. simpl.
  destruct (_ && _); [|discriminate].
  destruct (JsDate.digits4 _ _ _ _); [|discriminate].
  destruct (JsDate.digits2 _ _); [|discriminate].
  unfold JsDate.digits2.
  destruct (JsDate.digit _); [|discriminate].
  destruct (JsDate.digit a8) as [n|] eqn:E; [|discriminate].
  intros _. now exists a8, n.
Qed.

(** X13. The token ends 4 code units before the end of the key, whatever the
    extension.  For a key with a dot in fifth place from the end (an
    extension of 4 letters, as in ".json") the token ends on that dot: it
    is never a calendar date, and the rank of the key is whatever the
    engine's fallback parser makes of it. *)
Theorem longer_extension_shifts_token
    (parse_other : string -> Number) (key : string) :
  (14 <= String.length key)%nat ->
  String.get (String.length key - 5) key = Some "."%char ->
  let token := JsString.slice (-14) (-4) key in
  String.get 9 token = Some "."%char
  /\ JsDate.parse_iso_date token = None
  /\ sortDate parse_other key = parse_other token.
Proof.
  intros Hlen Hdot token.
  assert (Hlast : String.get 9 token = Some "."%char).
  { unfold token. rewrite slice_long by trivial.
    rewrite substring_correct1 by lia.
    replace (9 + (String.length key - 14))%nat with (String.length key - 5)%nat by lia.
    exact Hdot. }
  assert (Hnone : JsDate.parse_iso_date token = None).
  { destruct (JsDate.parse_iso_date token) as [tv|] eqn:E; trivial.
    destruct (parse_iso_date_last_digit token tv E) as (c & n & Hget & Hdigit).
    rewrite Hlast in Hget. injection Hget as <-. discriminate Hdigit. }
  repeat split; trivial.
  unfold sortDate, JsDate.getTime. fold token. now rewrite Hnone.
Qed.

Lemma longer_extension_shifts_token_witness :
  let token := JsString.slice (-14) (-4) "report_2024-06-15.json" in
  String.get 9 token = Some "."%char
  /\ JsDate.parse_iso_date token = None
  /\ sortDate no_other_dates "report_2024-06-15.json" = no_other_dates token.
Proof.
  apply (longer_extension_shifts_token no_other_dates "report_2024-06-15.json").
  - simpl. lia.
  - reflexivity.
Defined.

Example slice_date :
  JsString.slice (-14) (-4) "report_2024-06-15.pdf" = "2024-06-15".
Proof. reflexivity. Qed.

Example june_15 : JsDate.parse_iso_date "2024-06-15" = Some 1718409600000.
Proof. reflexivity. Qed.

Example feb_30 : JsDate.parse_iso_date "2024-02-30" = None.
Proof. reflexivity. Qed.

Example run_listing :
  fst (getMostRecentFile
         (Listing.send ["report.pdf"; "report_2024-01-01.pdf"; "report_2024-06-15.pdf"])
         no_other_dates "bucket" "report" (Build_World tt []))
  = Resolved (Some "report_2024-06-15.pdf").
Proof. reflexivity. Qed.

Example run_roundtrip :
  let w0 := Build_World (∅ : Objects) [] in
  let data := TextBody [72; 233; 8364; 128512] in
  let w1 := snd (uploadToS3 MemoryStore.send "b" "k" data "text/plain" w0) in
  fst (getFromS3 MemoryStore.send no_replacement "b" "k" w1)
  = Resolved [72; 233; 8364; 128512].
Proof. vm_compute. reflexivity. Qed.

Example epoch : JsDate.parse_iso_date "1970-01-01" = Some 0.
Proof. reflexivity. Qed.

Example leap_day : JsDate.parse_iso_date "2024-02-29" = Some 1709164800000.
Proof. reflexivity. Qed.

Example no_leap_day : JsDate.parse_iso_date "2023-02-29" = None.
Proof. reflexivity. Qed.

Example year_zero : JsDate.parse_iso_date "0000-01-01" = Some (-62167219200000).
Proof. reflexivity. Qed.

Example slice_short_key : JsString.slice (-14) (-4) "a_b.pdf" = "a_b".
Proof. reflexivity. Qed.

Example slice_tiny_key : JsString.slice (-14) (-4) "a_b" = "".
Proof. reflexivity. Qed.

Example run_broken_stream :
  let stream := {| yields := [[Byte.x01]]; failure := Some (Error "aborted") |} in
  drained {| GetObject.Body := Some (NodeStream stream) |} = Rejected (Error "aborted").
Proof. reflexivity. Qed.

Example run_overlong : Utf8.decode [Byte.xc0; Byte.x80] = None.
Proof. reflexivity. Qed.

Example run_surrogate : Utf8.decode [Byte.xed; Byte.xa0; Byte.x80] = None.
Proof. reflexivity. Qed.
